(** * parser_doski: the fetch-and-extract pipeline of [parser.py]

    A shallow embedding of [src/parser.py] (the crawler of www.doski.ru)
    and the properties of its resilience policy, listing extractor and
    category discoverer.

    Conventions of the embedding.
    - A Python [str] is a Rocq [string] read as a sequence of characters,
      one [ascii] for one character, so that [len], slicing and [strip]
      of the source are [String.length], [substring] and [Py.strip] here;
      the embedding covers text over the 256 characters that [ascii]
      offers.  The Cyrillic literals of the source (the names of the
      built-in categories) are kept as they are written in the file, as
      opaque constants: no property below depends on their characters or
      their length.
    - The program talks to collaborators that are not part of the
      repository: the DOM-query library (bs4), the HTTP transport
      (requests), the headless browser (selenium), the clock, the
      notification channel and the persistence layer.  Pure collaborators
      are an interface ([Markup] and [Bs4], and the pure fields of [Env]);
      effectful ones are oracles of [Env] that answer as a function of the
      whole history of calls made so far, so that every behaviour of a
      collaborator is some [Env]: the transport may raise any exception,
      not only those of [requests.exceptions], and [urljoin] and the
      robots.txt rules may refuse a malformed URL with a [ValueError].
      The notification channel records what it is sent and does not
      fault.
    - Python control flow with exceptions is a state-and-exception monad
      [M]; the state is the [DoskiParser] object together with the history
      of calls to the outside world (newest first).
    - [logger] calls have no effect on control flow or results and are left
      out. *)

From Stdlib Require Import ZArith Ascii String DecimalString Lia.
From stdpp Require Import gmap strings list.

Open Scope string_scope.
Open Scope list_scope.

(** ** Python string operations used by the source *)

Module Py.

(** [needle in hay] *)
Fixpoint str_in (needle hay : string) : bool :=
  String.prefix needle hay ||
  match hay with
  | EmptyString => false
  | String _ rest => str_in needle rest
  end.

Definition startswith (s p : string) : bool := String.prefix p s.

(** [c.lower()] for the characters below 256: the letters A-Z and the
    upper-case letters of Latin-1 (192-222, without the sign 215). *)
Definition lower_char (c : ascii) : ascii :=
  let n := nat_of_ascii c in
  if ((65 <=? n)%nat && (n <=? 90)%nat)
     || ((192 <=? n)%nat && (n <=? 222)%nat && negb (n =? 215)%nat)
  then ascii_of_nat (n + 32) else c.

(** [s.lower()] *)
Fixpoint lower (s : string) : string :=
  match s with
  | EmptyString => EmptyString
  | String c rest => String (lower_char c) (lower rest)
  end.

(** [c.isspace()] for the characters below 256 *)
Definition isspace (c : ascii) : bool :=
  let n := nat_of_ascii c in
  ((9 <=? n)%nat && (n <=? 13)%nat) || ((28 <=? n)%nat && (n <=? 32)%nat)
  || (n =? 133)%nat || (n =? 160)%nat.

Fixpoint lstrip (s : string) : string :=
  match s with
  | EmptyString => EmptyString
  | String c rest => if isspace c then lstrip rest else s
  end.

Fixpoint rstrip (s : string) : string :=
  match s with
  | EmptyString => EmptyString
  | String c rest =>
      match rstrip rest with
      | EmptyString => if isspace c then EmptyString else String c EmptyString
      | rest' => String c rest'
      end
  end.

(** [s.strip()] *)
Definition strip (s : string) : string := rstrip (lstrip s).

(** [s.split(sep)] for a one-character separator: never empty *)
Fixpoint split (sep : ascii) (s : string) : list string :=
  match s with
  | EmptyString => [EmptyString]
  | String c rest =>
      if Ascii.eqb c sep then EmptyString :: split sep rest
      else match split sep rest with
           | piece :: pieces => String c piece :: pieces
           | [] => [String c EmptyString]
           end
  end.

(** [s[:n]] *)
Definition slice_to (n : nat) (s : string) : string := String.substring 0 n s.

(** [str(z)] for an integer *)
Definition str_of_int (z : Z) : string := NilZero.string_of_int (Z.to_int z).

(** Truth value of a string: [bool(s)] *)
Definition truthy (s : string) : bool := negb (String.eqb s "").

End Py.

(** ** Exceptions *)

(** The classes of [requests.exceptions] that the transport raises. *)
Inductive requests_exception :=
| RequestException | HTTPError | ConnectionError | ProxyError | SSLError
| Timeout | ConnectTimeout | ReadTimeout | TooManyRedirects | InvalidURL.

(** Direct base classes inside [requests.exceptions]. *)
Definition requests_bases (c : requests_exception) : list requests_exception :=
  match c with
  | RequestException => []
  | HTTPError | ConnectionError | Timeout | TooManyRedirects | InvalidURL =>
      [RequestException]
  | ProxyError | SSLError => [ConnectionError]
  | ConnectTimeout => [ConnectionError; Timeout]
  | ReadTimeout => [Timeout]
  end.

Definition requests_exception_eqb (a b : requests_exception) : bool :=
  match a, b with
  | RequestException, RequestException | HTTPError, HTTPError
  | ConnectionError, ConnectionError | ProxyError, ProxyError
  | SSLError, SSLError | Timeout, Timeout | ConnectTimeout, ConnectTimeout
  | ReadTimeout, ReadTimeout | TooManyRedirects, TooManyRedirects
  | InvalidURL, InvalidURL => true
  | _, _ => false
  end.

(** [issubclass c cls], following the base classes (the hierarchy has
    depth 3). *)
Fixpoint issubclass_upto (depth : nat) (c cls : requests_exception) : bool :=
  requests_exception_eqb c cls ||
  match depth with
  | O => false
  | S d => existsb (fun b => issubclass_upto d b cls) (requests_bases c)
  end.

Definition issubclass : requests_exception -> requests_exception -> bool :=
  issubclass_upto 3.

(** Every exception the model can raise is a Python [Exception]. *)
Inductive exn :=
| RequestsExn (cls : requests_exception) (msg : string)
| KeyError (key : string)
| ValueError (msg : string)
| WebDriverException (msg : string)
| TimeoutException (msg : string)
| OSError (msg : string)
| OtherException (cls msg : string).

(** [str(e)] *)
Definition exn_str (e : exn) : string :=
  match e with
  | RequestsExn _ msg | ValueError msg | WebDriverException msg
  | TimeoutException msg | OSError msg | OtherException _ msg => msg
  | KeyError key => "'" +:+ key +:+ "'"
  end.

(** ** The DOM-query collaborator (bs4) *)

(** The types of the library: [html] is an HTML document as the program
    receives it; [Tag] is an element of a parsed document. *)
Class Markup := {
  html : Type;
  Tag : Type;
}.

(** What the source asks of BeautifulSoup. *)
Class Bs4 `{Markup} := {
  (** [BeautifulSoup(html, 'html.parser')] *)
  BeautifulSoup : html -> Tag;
  (** [tag.select(selector)]: matches in document order *)
  select : Tag -> string -> list Tag;
  (** [tag.select_one(selector)] *)
  select_one : Tag -> string -> option Tag;
  (** [tag.get_text(strip=True)] *)
  get_text : Tag -> string;
  (** [tag.attrs] lookup: [tag.get(name)], [None] when absent *)
  get : Tag -> string -> option string;
  (** [tag.find(name, attr=True)] *)
  find : Tag -> string -> string -> option Tag;
  (** [tag.find_all(name, attr=True)] *)
  find_all : Tag -> string -> string -> list Tag;
  (** [tag.find_next(name)] *)
  find_next : Tag -> string -> option Tag;
  (** [tag.next_sibling]: a tag, or the text of a string node *)
  next_sibling : Tag -> option (Tag + string);
}.

(** ** Data model *)

(** A listing produced by the table-row strategy ([_extract_listings]):
    the dict with keys id, title, url, price, description, parsed_at. *)
Record listing := {
  l_id : string;
  l_title : string;
  l_url : string;
  l_price : string;
  l_description : string;
  l_parsed_at : string;
}.

(** A listing produced by the generic-item strategy
    ([_parse_listing_item]); ['id'] starts as [None]. *)
Record item_listing := {
  i_id : option string;
  i_title : string;
  i_description : string;
  i_price : string;
  i_location : string;
  i_date : string;
  i_url : string;
  i_images : list string;
  i_parsed_at : string;
}.

(** A category; the built-in fallback entries carry no ['found_by']. *)
Record category := {
  c_name : string;
  c_url : string;
  c_found_by : option string;
}.

(** The configuration collaborator, with the options the source reads.
    [cfg_timeout = None] stands for a missing ['timeout'] key; an empty
    list or string stands for a missing or falsy entry. *)
Record Config := {
  proxy_enabled : bool;
  cfg_proxy_list : list string;
  proxy_http : string;
  proxy_https : string;
  proxy_socks : string;
  proxy_rotate : bool;
  cfg_timeout : option nat;
  max_categories_per_session : nat;
  category_delay : nat;
}.

(** The messages handed to [telegram_bot.send_message], one constructor
    per format string of the source. *)
Inductive message :=
| MsgStartParse (category_url : string)
    (* f"🔍 Starting to parse: {category_url}" *)
| MsgSeleniumError (e : string)
    (* f"❌ Selenium error: {e}" *)
| MsgParsed (found total_stored : nat)
    (* f"✅ Parsed {len(listings)} listings from category\n📊 Total stored: {...}" *)
| MsgErrorFetching (url : string)
    (* f"❌ Error fetching {url}: Connection failed" *)
| MsgMainPage
    (* "🏠 Parsing main page for categories..." *)
| MsgFoundCategories (n : nat)
    (* f"📂 Found {len(unique_categories)} categories" *)
| MsgSessionStart (start_time : string)
    (* f"🚀 Starting full parse session at {start_time...}" *)
| MsgErrorParsingCategory (name e : string)
    (* f"❌ Error parsing category {category['name']}: {str(e)}" *)
| MsgSummary (parsed_categories n_categories total_listings total_stored : nat)
             (start_time end_time : string)
    (* f"✅ Parse session completed!\n..." *)
| MsgSessionFailed (e : string).
    (* f"❌ Parse session failed: {str(e)}" *)

(** The result dict of [full_parse]. *)
Inductive session_result :=
| SessionOk (categories_parsed total_listings : nat) (start_time end_time : string)
| SessionFailed (error : string).

Section Pipeline.

Context `{Bs4}.

(** [requests.Response]: the status and the body. *)
Record Response := {
  status_code : nat;
  text : html;
}.

(** Calls made to the outside world.  A call is recorded whether or not
    it faults. *)
Inductive event :=
| EvSend (m : message)                       (* telegram_bot.send_message *)
| EvGet (url : string) (proxies : gmap string string) (timeout : nat)
                                             (* session.get(url, timeout=..) *)
| EvChrome                                   (* webdriver.Chrome(options=..) *)
| EvSetPageLoadTimeout (timeout : nat)       (* driver.set_page_load_timeout *)
| EvDriverGet (url : string)                 (* driver.get(url) *)
| EvPageSource                               (* driver.page_source *)
| EvQuit                                     (* driver.quit() *)
| EvSleep (seconds : nat)                    (* time.sleep / asyncio.sleep *)
| EvNow                                      (* datetime.now() *)
| EvWriteFile (name : string) (contents : html)
| EvExtractText (contents : html)            (* trafilatura / get_text *)
| EvSaveListing (l : listing)                (* storage.save_listing *)
| EvTotalCount.                              (* storage.get_total_count *)

Definition history := list event.

(** The behaviour of the collaborators.  [validate_url] is
    [utils.validate_url] and [save_listing], [get_total_count] are
    [storage.DataStorage], modules of the repository that are taken as
    parameters here. *)
Record Env := {
  (** [urllib.parse.urljoin(base, url)]; it raises [ValueError] on a
      reference it cannot split, such as one with an unclosed bracket in
      its authority *)
  urljoin : string -> string -> string + exn;
  validate_url : string -> bool;
  hash : string -> Z;
  (** whether [import socks] succeeds *)
  has_socks : bool;
  now : history -> string;
  (** [session.get]: a response, or the exception raised, of a class of
      [requests.exceptions] or of any other class (requests raises
      [ValueError] for a timeout that is not positive) *)
  session_get : history -> string -> gmap string string -> nat -> Response + exn;
  chrome : history -> unit + exn;
  set_page_load_timeout : history -> nat -> unit + exn;
  driver_get : history -> string -> unit + exn;
  page_source : history -> html + exn;
  driver_quit : history -> unit + exn;
  write_file : history -> string -> html -> unit + exn;
  extract_text : history -> html -> unit + exn;
  save_listing : history -> listing -> unit + exn;
  get_total_count : history -> nat;
}.

Context (env : Env).

(** The parser object: the fields that the methods read and write.
    [robots_parser] is [None] or the [can_fetch('*', url)] of the rules
    that were loaded, which raises [ValueError] on a URL it cannot
    split. *)
Record DoskiParser := {
  config : Config;
  proxy_list : list string;
  current_proxy_index : nat;
  session_proxies : gmap string string;
  robots_parser : option (string -> bool + exn);
}.

Record state := {
  self : DoskiParser;
  world : history;
}.

Definition base_url : string := "https://www.doski.ru".

(** ** The monad of the embedding *)

Inductive outcome (A : Type) :=
| Return (a : A)
| Raise (e : exn).
Arguments Return {A} a.
Arguments Raise {A} e.

Definition M (A : Type) : Type := state -> outcome A * state.

Definition ret {A} (a : A) : M A := fun st => (Return a, st).

Definition bind {A B} (c : M A) (k : A -> M B) : M B :=
  fun st =>
    match c st with
    | (Return a, st') => k a st'
    | (Raise e, st') => (Raise e, st')
    end.

Definition raise {A} (e : exn) : M A := fun st => (Raise e, st).

(** The call of a pure function that may raise. *)
Definition may_raise {A} (r : A + exn) : M A :=
  match r with
  | inl a => ret a
  | inr e => raise e
  end.

(** [try: body  except ...: handler]; the handler answers [None] for an
    exception that no [except] clause matches, which then propagates. *)
Definition try_except {A} (body : M A) (handler : exn -> option (M A)) : M A :=
  fun st =>
    match body st with
    | (Return a, st') => (Return a, st')
    | (Raise e, st') =>
        match handler e with
        | Some h => h st'
        | None => (Raise e, st')
        end
    end.

Notation "'let*' x ':=' c 'in' k" := (bind c (fun x => k))
  (at level 10, x name, c at level 100, k at level 200).
Notation "c ;;; k" := (bind c (fun _ => k))
  (at level 100, k at level 200, right associativity).

Definition get_self : M DoskiParser := fun st => (Return (self st), st).
Definition put_self (s : DoskiParser) : M unit :=
  fun st => (Return tt, {| self := s; world := world st |}).

(** A call to a collaborator: recorded in the history, answered by the
    oracle from the history before the call. *)
Definition call {A} (ev : event) (oracle : history -> A + exn) : M A :=
  fun st =>
    (match oracle (world st) with inl a => Return a | inr e => Raise e end,
     {| self := self st; world := ev :: world st |}).

(** [await self.telegram_bot.send_message(m)] *)
Definition send_message (m : message) : M unit :=
  call (EvSend m) (fun _ => inl tt).

(** [datetime.now().isoformat()] *)
Definition datetime_now : M string :=
  call EvNow (fun w => inl (now env w)).

Definition sleep (seconds : nat) : M unit :=
  call (EvSleep seconds) (fun _ => inl tt).

(** ** Dynamic render fetcher *)

(** [get_rendered_html(url, timeout=20)].  The [Options] object only
    configures the browser and is not modelled. *)
Definition get_rendered_html (url : string) (timeout : nat) : M html :=
  call EvChrome (chrome env) ;;;
  call (EvSetPageLoadTimeout timeout) (fun w => set_page_load_timeout env w timeout) ;;;
  call (EvDriverGet url) (fun w => driver_get env w url) ;;;
  sleep 3 ;;;
  let* page := call EvPageSource (page_source env) in
  call EvQuit (driver_quit env) ;;;
  ret page.

(** ** Proxy rotation manager *)

Definition with_proxies (s : DoskiParser) (p : gmap string string) : DoskiParser :=
  {| config := config s; proxy_list := proxy_list s;
     current_proxy_index := current_proxy_index s;
     session_proxies := p; robots_parser := robots_parser s |}.

Definition with_index (s : DoskiParser) (i : nat) : DoskiParser :=
  {| config := config s; proxy_list := proxy_list s;
     current_proxy_index := i;
     session_proxies := session_proxies s; robots_parser := robots_parser s |}.

Definition with_proxy_list (s : DoskiParser) (l : list string) : DoskiParser :=
  {| config := config s; proxy_list := l;
     current_proxy_index := current_proxy_index s;
     session_proxies := session_proxies s; robots_parser := robots_parser s |}.

(** [{'http': proxy_url, 'https': proxy_url}] *)
Definition proxies_for (proxy_url : string) : gmap string string :=
  <["http" := proxy_url]> (<["https" := proxy_url]> ∅).

(** [_set_proxy(self, proxy_url)].  The outer [except Exception] guards
    statements that do not raise in this model. *)
Definition _set_proxy (proxy_url : string) : M bool :=
  let* s := get_self in
  if Py.startswith proxy_url "socks" then
    if has_socks env then
      put_self (with_proxies s (proxies_for proxy_url)) ;;; ret true
    else ret false
  else
    put_self (with_proxies s (proxies_for proxy_url)) ;;; ret true.

(** [_setup_proxy(self)] *)
Definition _setup_proxy : M unit :=
  let* s := get_self in
  if negb (proxy_enabled (config s)) then ret tt
  else
    let pool :=
      match cfg_proxy_list (config s) with
      | _ :: _ => cfg_proxy_list (config s)
      | [] =>
          (proxy_list s
           ++ (if Py.truthy (proxy_http (config s)) then [proxy_http (config s)] else [])
           ++ (if Py.truthy (proxy_https (config s)) then [proxy_https (config s)] else [])
           ++ (if Py.truthy (proxy_socks (config s)) then [proxy_socks (config s)] else []))
      end in
    put_self (with_proxy_list s pool) ;;;
    match pool with
    | first :: _ => _set_proxy first ;;; ret tt
    | [] => ret tt
    end.

(** The fields set by [__init__] before [_setup_proxy] runs. *)
Definition init_parser (cfg : Config) (robots : option (string -> bool + exn)) : DoskiParser :=
  {| config := cfg; proxy_list := []; current_proxy_index := 0;
     session_proxies := ∅; robots_parser := robots |}.

(** [_rotate_proxy(self)] *)
Definition _rotate_proxy : M bool :=
  let* s := get_self in
  if (length (proxy_list s) <=? 1)%nat then ret false
  else
    let index := ((current_proxy_index s + 1) mod length (proxy_list s))%nat in
    put_self (with_index s index) ;;;
    match proxy_list s !! index with
    | Some new_proxy => _set_proxy new_proxy
    | None => raise (OtherException "IndexError" "list index out of range")
    end.

(** ** Politeness policy *)

(** [_can_fetch(self, url)] *)
Definition _can_fetch (s : DoskiParser) (url : string) : bool + exn :=
  match robots_parser s with
  | None => inl true
  | Some can_fetch => can_fetch url
  end.

(** ** Resilient fetcher *)

(** A client or server error status, [400 <= status_code < 600]. *)
Definition is_error_status (r : Response) : bool :=
  (400 <=? status_code r)%nat && (status_code r <? 600)%nat.

(** [response.raise_for_status()] *)
Definition raise_for_status (r : Response) : M unit :=
  if is_error_status r
  then raise (RequestsExn HTTPError "HTTP error")
  else ret tt.

(** [self.session.get(url, timeout=self.config.get('timeout', 10))] *)
Definition do_session_get (url : string) : M Response :=
  let* s := get_self in
  let timeout := default 10 (cfg_timeout (config s)) in
  call (EvGet url (session_proxies s) timeout)
       (fun w => session_get env w url (session_proxies s) timeout).

(** How one turn of a [for] loop ends. *)
Inductive flow (A : Type) :=
| Continue
| Break
| ReturnValue (a : A).
Arguments Continue {A}.
Arguments Break {A}.
Arguments ReturnValue {A} a.

(** One turn of [for proxy_attempt in range(max_proxy_retries)].  An
    exception that is not of a class of [requests.exceptions] matches
    neither [except] clause. *)
Definition fetch_attempt (url : string) : M (flow Response) :=
  try_except
    (let* response := do_session_get url in
     raise_for_status response ;;;
     ret (ReturnValue response))
    (fun e =>
       match e with
       | RequestsExn cls _ =>
           if issubclass cls ProxyError || issubclass cls ConnectionError then
             Some (let* s := get_self in
                   if proxy_rotate (config s) then
                     let* rotated := _rotate_proxy in
                     if rotated then ret (@Continue Response) else ret (@Break Response)
                   else ret (@Break Response))
           else if issubclass cls RequestException then Some (ret (@Break Response))
           else None
       | _ => None
       end).

(** The [for] loop of [_fetch_page]: [Some response] when a turn returned,
    [None] when the range was exhausted or a turn broke out. *)
Fixpoint fetch_attempts (url : string) (turns : nat) : M (option Response) :=
  match turns with
  | O => ret None
  | S turns' =>
      let* f := fetch_attempt url in
      match f with
      | ReturnValue response => ret (Some response)
      | Break => ret None
      | Continue => fetch_attempts url turns'
      end
  end.

(** The direct-connection attempt after the loop; [Some response] when it
    returned a response. *)
Definition fetch_without_proxy (url : string) : M (option Response) :=
  let* s := get_self in
  if bool_decide (session_proxies s ≠ ∅) && proxy_enabled (config s) then
    let old_proxies := session_proxies s in
    put_self (with_proxies s ∅) ;;;
    try_except
      (let* response := do_session_get url in
       raise_for_status response ;;;
       ret (Some response))
      (fun e =>
         match e with
         | RequestsExn cls _ =>
             if issubclass cls RequestException then
               Some (let* s' := get_self in
                     put_self (with_proxies s' old_proxies) ;;;
                     ret None)
             else None
         | _ => None
         end)
  else ret None.

(** [len(self.proxy_list) if self.proxy_list else 1] *)
Definition max_proxy_retries (s : DoskiParser) : nat :=
  match proxy_list s with
  | [] => 1
  | _ => length (proxy_list s)
  end.

(** [_fetch_page(self, url)]; [None] is the Unavailable result.  The
    [rate_limiter] decorator of [utils] wraps this body and is not part of
    it. *)
Definition _fetch_page (url : string) : M (option Response) :=
  let* s := get_self in
  let* allowed := may_raise (_can_fetch s url) in
  if negb allowed then ret None
  else
    let* looped := fetch_attempts url (max_proxy_retries s) in
    match looped with
    | Some response => ret (Some response)
    | None =>
        let* direct := fetch_without_proxy url in
        match direct with
        | Some response => ret (Some response)
        | None =>
            send_message (MsgErrorFetching url) ;;;
            ret None
        end
    end.

(** ** Listing extractor *)

(** The double-quote character, for the attribute selectors. *)
Definition quoted (s : string) : string :=
  String "034"%char EmptyString +:+ s +:+ String "034"%char EmptyString.

(** [tag[key]]: raises [KeyError] when the attribute is absent. *)
Definition subscript (tag : Tag) (key : string) : M string :=
  match get tag key with
  | Some value => ret value
  | None => raise (KeyError key)
  end.

(** The description of a row: the string that follows the first [br]
    after the title anchor.  The source wraps this in
    [try ... except Exception: pass]; the queries do not raise here. *)
Definition row_description (title_elem : Tag) : string :=
  match find_next title_elem "br" with
  | Some br =>
      match next_sibling br with
      | Some (inr s) => Py.strip s
      | _ => ""
      end
  | None => ""
  end.

(** [url.split('/')[-1].split('.')[0]] *)
Definition id_of_url (url : string) : string :=
  List.hd "" (Py.split "." (List.last (Py.split "/" url) "")).

(** The body of [for row in rows], with the [listings] built so far. *)
Fixpoint extract_rows (rows : list Tag) (listings : list listing) : M (list listing) :=
  match rows with
  | [] => ret listings
  | row :: rows' =>
      match select_one row "a.sbj" with
      | None => extract_rows rows' listings
      | Some title_elem =>
          let title := get_text title_elem in
          let* href := subscript title_elem "href" in
          let* url := may_raise (urljoin env base_url href) in
          let price :=
            match select_one row ("td[align=" +:+ quoted "right" +:+ "] b") with
            | Some price_elem => get_text price_elem
            | None => ""
            end in
          let desc := row_description title_elem in
          let* parsed_at := datetime_now in
          extract_rows rows'
            (listings ++ [{| l_id := id_of_url url; l_title := title; l_url := url;
                             l_price := price; l_description := desc;
                             l_parsed_at := parsed_at |}])
      end
  end.

(** [DoskiParser._extract_listings(self, html_content)] *)
Definition _extract_listings (html_content : html) : M (list listing) :=
  let soup := BeautifulSoup html_content in
  let rows := select soup "table.ml tr" in
  extract_rows rows [].


(** [for selector in selectors: elem = item.select_one(selector);
    if elem: ...; break]: the first element matched down the cascade. *)
Fixpoint first_match (item : Tag) (selectors : list string) : option Tag :=
  match selectors with
  | [] => None
  | selector :: selectors' =>
      match select_one item selector with
      | Some elem => Some elem
      | None => first_match item selectors'
      end
  end.

Definition cascade_text (item : Tag) (selectors : list string) : string :=
  match first_match item selectors with
  | Some elem => get_text elem
  | None => ""
  end.

Definition title_selectors : list string :=
  ["h2"; "h3"; ".title"; "[class*=" +:+ quoted "title" +:+ "]"; "a"].
Definition price_selectors : list string :=
  [".price"; "[class*=" +:+ quoted "price" +:+ "]"; "[class*=" +:+ quoted "cost" +:+ "]"].
Definition location_selectors : list string :=
  [".location"; "[class*=" +:+ quoted "location" +:+ "]"; "[class*=" +:+ quoted "city" +:+ "]"].
Definition desc_selectors : list string :=
  [".description"; ".desc"; "[class*=" +:+ quoted "description" +:+ "]"].

(** [for img in images: ...] *)
Fixpoint collect_images (images : list Tag) (acc : list string) : M (list string) :=
  match images with
  | [] => ret acc
  | img :: images' =>
      let* src := subscript img "src" in
      let* img_url := may_raise (urljoin env base_url src) in
      collect_images images'
        (if validate_url env img_url then acc ++ [img_url] else acc)
  end.

(** The ['id'] of a generic item. *)
Definition item_id (url title : string) : option string :=
  if Py.truthy url then
    let parts := List.filter Py.truthy (Py.split "/" url) in
    match parts with
    | [] => None
    | _ => Some (List.last parts "")
    end
  else if Py.truthy title then
    Some (Py.slice_to 10 (Py.str_of_int (hash env title)))
  else None.

(** The ['url'] of a generic item: the [href] of its first link, resolved
    against the base URL. *)
Definition item_url (item : Tag) : M string :=
  match find item "a" "href" with
  | Some link =>
      let* href := subscript link "href" in
      may_raise (urljoin env base_url href)
  | None => ret ""
  end.

(** [DoskiParser._parse_listing_item(self, item)]; [None] is the
    discarded record. *)
Definition _parse_listing_item (item : Tag) : M (option item_listing) :=
  let* parsed_at := datetime_now in
  let title := cascade_text item title_selectors in
  let* url := item_url item in
  let price := cascade_text item price_selectors in
  let location := cascade_text item location_selectors in
  let description :=
    match first_match item desc_selectors with
    | Some desc_elem => Py.slice_to 200 (get_text desc_elem)
    | None => ""
    end in
  let* images := collect_images (find_all item "img" "src") [] in
  let listing :=
    {| i_id := item_id url title; i_title := title; i_description := description;
       i_price := price; i_location := location; i_date := ""; i_url := url;
       i_images := images; i_parsed_at := parsed_at |} in
  ret (if Py.truthy title then Some listing else None).

(** ** Category page *)

(** [for listing in listings: self.storage.save_listing(listing)] *)
Fixpoint save_all (listings : list listing) : M unit :=
  match listings with
  | [] => ret tt
  | l :: listings' =>
      call (EvSaveListing l) (fun w => save_listing env w l) ;;;
      save_all listings'
  end.

Definition storage_total_count : M nat :=
  call EvTotalCount (fun w => inl (get_total_count env w)).

(** [DoskiParser.parse_category(self, category_url)] *)
Definition parse_category (category_url : string) : M (list listing) :=
  send_message (MsgStartParse category_url) ;;;
  let* rendered :=
    try_except
      (let* page := get_rendered_html category_url 20 in ret (Some page))
      (fun e => Some (send_message (MsgSeleniumError (exn_str e)) ;;; ret None)) in
  match rendered with
  | None => ret []
  | Some page =>
      try_except
        (call (EvWriteFile "debug_category.html" page)
              (fun w => write_file env w "debug_category.html" page))
        (fun _ => Some (ret tt)) ;;;
      call (EvExtractText page) (fun w => extract_text env w page) ;;;
      let* listings := _extract_listings page in
      save_all listings ;;;
      let* total := storage_total_count in
      send_message (MsgParsed (length listings) total) ;;;
      ret listings
  end.

(** ** Category discoverer *)

Record link_data := {
  ld_href : string;
  ld_text : string;
  ld_selector : string;
}.

Definition category_selectors : list string :=
  [ "a[href*=" +:+ quoted "/cat-" +:+ "]";
    "a[href*=" +:+ quoted "/category/" +:+ "]";
    "a[href*=" +:+ quoted "/cat/" +:+ "]";
    "a[href*=" +:+ quoted "/section/" +:+ "]";
    "a[href*=" +:+ quoted "/region/" +:+ "]";
    "a[href*=" +:+ quoted "/city/" +:+ "]";
    ".category-link";
    "[class*=" +:+ quoted "category" +:+ "] a";
    "nav a";
    ".menu a";
    "a" ].

Definition skip_list : list string :=
  ["mailto:"; "tel:"; "javascript:"; "#"; "login"; "register"; "search"].

(** The test guarding [all_links.append]. *)
Definition link_accepted (href text : string) : bool :=
  Py.truthy href && Py.truthy text
  && (2 <? String.length text)%nat && (String.length text <? 50)%nat
  && negb (existsb (fun skip => Py.str_in skip (Py.lower href)) skip_list).

(** The links one selector contributes to [all_links]. *)
Definition links_of_selector (soup : Tag) (selector : string) : list link_data :=
  flat_map
    (fun link =>
       let href := default "" (get link "href") in
       let text := get_text link in
       if link_accepted href text
       then [{| ld_href := href; ld_text := text; ld_selector := selector |}]
       else [])
    (select soup selector).

Definition all_links (soup : Tag) : list link_data :=
  flat_map (links_of_selector soup) category_selectors.

(** One turn of [for link_data in all_links]: the category appended, if
    any; [urljoin] may raise. *)
Definition category_of_link (ld : link_data) : option category + exn :=
  match urljoin env base_url (ld_href ld) with
  | inl category_url =>
      inl (if validate_url env category_url
           then Some {| c_name := ld_text ld; c_url := category_url;
                        c_found_by := Some (ld_selector ld) |}
           else None)
  | inr e => inr e
  end.

(** [for link_data in all_links: ... categories.append(...)]: the list
    [categories] after the loop, or the exception of the first turn that
    raised. *)
Fixpoint categories_of (links : list link_data) : list category + exn :=
  match links with
  | [] => inl []
  | ld :: links' =>
      match category_of_link ld with
      | inl found =>
          match categories_of links' with
          | inl categories =>
              inl (match found with
                   | Some cat => cat :: categories
                   | None => categories
                   end)
          | inr e => inr e
          end
      | inr e => inr e
      end
  end.

(** The deduplication loop, with the set [seen]. *)
Fixpoint unique_from (seen : gset string) (categories : list category) : list category :=
  match categories with
  | [] => []
  | cat :: categories' =>
      if decide (c_url cat ∈ seen) then unique_from seen categories'
      else cat :: unique_from ({[c_url cat]} ∪ seen) categories'
  end.

Definition fallback (name path : string) : category :=
  {| c_name := name; c_url := base_url +:+ path; c_found_by := None |}.

Definition fallback_categories : list category :=
  [ fallback "Недвижимость - Квартиры продажа" "/cat-nedvizhimost/zhilaya/kvartiry/prodam/";
    fallback "Недвижимость - Квартиры аренда" "/cat-nedvizhimost/zhilaya/kvartiry/sdau/";
    fallback "Транспорт - Легковые авто" "/cat-transport/legkovye-avtomobili/prodam/";
    fallback "Недвижимость - Дома продажа" "/cat-nedvizhimost/zhilaya/doma-dachi/prodam/";
    fallback "Детские товары" "/cat-detskiy-mir/detskaya-odezhda-obuv/detskaya-odezhda/prodam/";
    fallback "Животные - Собаки" "/cat-zhivotnye-i-rasteniya/sobaki/podaru/";
    fallback "Одежда женская" "/cat-lichnye-veschi/odezhda/platya-bluzki-ubki/";
    fallback "Работа - Вакансии" "/cat-rabota/vakansii/" ].

(** The unique categories discovered on a parsed main page. *)
Definition discovered (soup : Tag) : list category + exn :=
  match categories_of (all_links soup) with
  | inl categories => inl (unique_from ∅ categories)
  | inr e => inr e
  end.

(** The choice between the discovered list and the built-in one. *)
Definition chosen_categories (unique_categories : list category) : list category :=
  if (length unique_categories <? 3)%nat
  then take 5 fallback_categories
  else take 5 unique_categories.

(** [bool(response)], which is [response.ok] *)
Definition response_ok (r : Response) : bool := negb (is_error_status r).

(** [DoskiParser.parse_main_page(self)] *)
Definition parse_main_page : M (list category) :=
  send_message MsgMainPage ;;;
  let* response := _fetch_page base_url in
  match response with
  | None => ret []
  | Some response =>
      if negb (response_ok response) then ret []
      else
        let soup := BeautifulSoup (text response) in
        let* unique_categories := may_raise (discovered soup) in
        let unique_categories := chosen_categories unique_categories in
        send_message (MsgFoundCategories (length unique_categories)) ;;;
        ret unique_categories
  end.

(** ** Session *)

(** [for i, category in enumerate(categories[:max_categories])], from
    index [i] on; the state of the loop is [(total_listings,
    parsed_categories)]. *)
Fixpoint parse_categories (n_categories delay : nat) (i : nat) (todo : list category)
         (total_listings parsed_categories : nat) : M (nat * nat) :=
  match todo with
  | [] => ret (total_listings, parsed_categories)
  | category :: todo' =>
      let* counters :=
        try_except
          (let* listings := parse_category (c_url category) in
           (if (i <? n_categories - 1)%nat then sleep delay else ret tt) ;;;
           ret ((total_listings + length listings)%nat, (parsed_categories + 1)%nat))
          (fun e =>
             Some (send_message (MsgErrorParsingCategory (c_name category) (exn_str e)) ;;;
                   ret (total_listings, parsed_categories))) in
      parse_categories n_categories delay (S i) todo' (fst counters) (snd counters)
  end.

(** [DoskiParser.full_parse(self)] *)
Definition full_parse : M session_result :=
  let* start_time := datetime_now in
  send_message (MsgSessionStart start_time) ;;;
  try_except
    (let* categories := parse_main_page in
     let* s := get_self in
     let max_categories := max_categories_per_session (config s) in
     let* counters :=
       parse_categories (length categories) (category_delay (config s)) 0
                        (take max_categories categories) 0 0 in
     let* end_time := datetime_now in
     let* total_stored := storage_total_count in
     send_message (MsgSummary (snd counters) (length categories) (fst counters)
                              total_stored start_time end_time) ;;;
     ret (SessionOk (snd counters) (fst counters) start_time end_time))
    (fun e =>
       Some (send_message (MsgSessionFailed (exn_str e)) ;;;
             ret (SessionFailed (exn_str e)))).

End Pipeline.

Notation "'let*' x ':=' c 'in' k" := (bind c (fun x => k))
  (at level 10, x name, c at level 100, k at level 200).
Notation "c ;;; k" := (bind c (fun _ => k))
  (at level 100, k at level 200, right associativity).

Arguments Return {A} a.
Arguments Raise {A} e.
Arguments is_error_status : simpl never.
Arguments Continue {A}.
Arguments Break {A}.
Arguments ReturnValue {A} a.

(** ** A document model for the DOM queries

    Parse trees with the queries of [Bs4] computed on them, after bs4 with
    [html.parser] and its selector engine: an element is reached together
    with the path back to the root, so that a selector is matched against
    all its ancestors and [find_next] walks on through the rest of the
    document.  It provides the concrete documents of the examples below. *)

Module MiniSoup.

#[local] Unset Elimination Schemes.
Inductive node :=
| Element (name : string) (attrs : list (string * string)) (children : list node)
| NavigableString (s : string)
| Comment (s : string).
#[local] Set Elimination Schemes.

(** One step of the path to the root: the parent element and the
    siblings that follow. *)
Record frame := {
  fr_name : string;
  fr_attrs : list (string * string);
  fr_after : list node;
}.

Definition element : Type := node * list frame.

Fixpoint assoc (key : string) (attrs : list (string * string)) : option string :=
  match attrs with
  | [] => None
  | (k, v) :: attrs' => if String.eqb k key then Some v else assoc key attrs'
  end.

(** All nodes below [n], in document order. *)
Fixpoint descendants (ctx : list frame) (n : node) : list element :=
  match n with
  | Element name attrs children =>
      (fix forest (l : list node) : list element :=
         match l with
         | [] => []
         | child :: after =>
             let ctx' := {| fr_name := name; fr_attrs := attrs; fr_after := after |} :: ctx in
             ((child, ctx') :: descendants ctx' child ++ forest after)
         end) children
  | _ => []
  end.

(** The nodes after the subtree of an element, in document order. *)
Fixpoint following (ctx : list frame) : list element :=
  match ctx with
  | [] => []
  | f :: up =>
      (descendants up (Element (fr_name f) (fr_attrs f) (fr_after f)) ++ following up)
  end.

(** *** Selectors *)

Inductive simple :=
| ByName (name : string)
| ByClass (class : string)
| AttrEquals (attr value : string)
| AttrContains (attr value : string).

Definition is_ident_char (c : ascii) : bool :=
  let n := nat_of_ascii c in
  ((48 <=? n)%nat && (n <=? 57)%nat) || ((65 <=? n)%nat && (n <=? 90)%nat)
  || ((97 <=? n)%nat && (n <=? 122)%nat) || (n =? 45)%nat || (n =? 95)%nat.

Fixpoint span (p : ascii -> bool) (s : string) : string * string :=
  match s with
  | EmptyString => (EmptyString, EmptyString)
  | String c rest =>
      if p c then let (a, b) := span p rest in (String c a, b)
      else (EmptyString, s)
  end.

Definition is_quote (c : ascii) : bool := Ascii.eqb c "034"%char.

(** [="value"]] after the attribute name and operator *)
Definition parse_value (s : string) : option (string * string) :=
  match s with
  | String q rest =>
      if is_quote q then
        match span (fun c => negb (is_quote c)) rest with
        | (value, String _ (String "]" rest')) => Some (value, rest')
        | _ => None
        end
      else None
  | EmptyString => None
  end.

(** The class and attribute parts of a compound selector. *)
Fixpoint parse_parts (fuel : nat) (s : string) : option (list simple * string) :=
  match fuel with
  | O => None
  | S fuel' =>
      match s with
      | String "." rest =>
          let (class, rest') := span is_ident_char rest in
          match parse_parts fuel' rest' with
          | Some (parts, out) => Some (ByClass class :: parts, out)
          | None => None
          end
      | String "[" rest =>
          let (attr, rest') := span is_ident_char rest in
          match rest' with
          | String "*" (String "=" rest'') =>
              match parse_value rest'' with
              | Some (value, rest3) =>
                  match parse_parts fuel' rest3 with
                  | Some (parts, out) => Some (AttrContains attr value :: parts, out)
                  | None => None
                  end
              | None => None
              end
          | String "=" rest'' =>
              match parse_value rest'' with
              | Some (value, rest3) =>
                  match parse_parts fuel' rest3 with
                  | Some (parts, out) => Some (AttrEquals attr value :: parts, out)
                  | None => None
                  end
              | None => None
              end
          | _ => None
          end
      | _ => Some ([], s)
      end
  end.

(** Compound selectors separated by the descendant combinator, the
    subject first and its required ancestors after it. *)
Fixpoint parse_selector (fuel : nat) (s : string) (outer : list (list simple))
  : option (list (list simple)) :=
  match fuel with
  | O => None
  | S fuel' =>
      let (name, rest) := span is_ident_char s in
      match parse_parts (S (String.length rest)) rest with
      | Some (parts, out) =>
          let compound := ((if Py.truthy name then [ByName name] else []) ++ parts) in
          match compound, out with
          | [], _ => None
          | _, EmptyString => Some (compound :: outer)
          | _, String " " out' => parse_selector fuel' out' (compound :: outer)
          | _, _ => None
          end
      | None => None
      end
  end.

Definition selector_of (s : string) : option (list (list simple)) :=
  parse_selector (S (String.length s)) s [].

(** The tokens of a [class] attribute. *)
Fixpoint words_from (current : string) (s : string) : list string :=
  match s with
  | EmptyString => if Py.truthy current then [current] else []
  | String c rest =>
      if Py.isspace c
      then ((if Py.truthy current then [current] else []) ++ words_from EmptyString rest)
      else words_from (current +:+ String c EmptyString) rest
  end.

Definition simple_matches (name : string) (attrs : list (string * string)) (s : simple) : bool :=
  match s with
  | ByName n => String.eqb name n
  | ByClass c =>
      match assoc "class" attrs with
      | Some v => existsb (String.eqb c) (words_from EmptyString v)
      | None => false
      end
  | AttrEquals a v =>
      match assoc a attrs with
      | Some x => String.eqb x v
      | None => false
      end
  | AttrContains a v =>
      match assoc a attrs with
      | Some x => Py.truthy v && Py.str_in v x
      | None => false
      end
  end.

Definition compound_matches (name : string) (attrs : list (string * string))
           (compound : list simple) : bool :=
  forallb (simple_matches name attrs) compound.

(** Each compound is matched by some ancestor, going outwards. *)
Fixpoint ancestors_match (compounds : list (list simple)) (ctx : list frame) : bool :=
  match compounds with
  | [] => true
  | compound :: compounds' =>
      (fix search (ctx : list frame) : bool :=
         match ctx with
         | [] => false
         | f :: up =>
             (compound_matches (fr_name f) (fr_attrs f) compound
              && ancestors_match compounds' up)
             || search up
         end) ctx
  end.

Definition matches (compounds : list (list simple)) (e : element) : bool :=
  match compounds, e with
  | subject :: ancestors, (Element name attrs _, ctx) =>
      compound_matches name attrs subject && ancestors_match ancestors ctx
  | _, _ => false
  end.

(** *** The queries *)

Definition select (e : element) (selector : string) : list element :=
  match selector_of selector with
  | Some compounds => List.filter (matches compounds) (descendants (snd e) (fst e))
  | None => []
  end.

Definition select_one (e : element) (selector : string) : option element :=
  List.hd_error (select e selector).

Definition stripped_strings (e : element) : list string :=
  flat_map
    (fun d : element =>
       match fst d with
       | NavigableString s => if Py.truthy (Py.strip s) then [Py.strip s] else []
       | _ => []
       end)
    (descendants (snd e) (fst e)).

Definition get_text (e : element) : string := String.concat "" (stripped_strings e).

Definition get (e : element) (key : string) : option string :=
  match fst e with
  | Element _ attrs _ => assoc key attrs
  | _ => None
  end.

Definition is_named (name : string) (d : element) : bool :=
  match fst d with
  | Element n _ _ => String.eqb n name
  | _ => false
  end.

Definition has_attr (attr : string) (d : element) : bool :=
  match get d attr with Some _ => true | None => false end.

Definition find_all (e : element) (name attr : string) : list element :=
  List.filter (fun d => is_named name d && has_attr attr d) (descendants (snd e) (fst e)).

Definition find (e : element) (name attr : string) : option element :=
  List.hd_error (find_all e name attr).

Definition find_next (e : element) (name : string) : option element :=
  List.hd_error
    (List.filter (is_named name) (descendants (snd e) (fst e) ++ following (snd e))).

Definition next_sibling (e : element) : option (element + string) :=
  match snd e with
  | f :: up =>
      match fr_after f with
      | Element n a c :: after =>
          Some (inl (Element n a c,
                     {| fr_name := fr_name f; fr_attrs := fr_attrs f; fr_after := after |} :: up))
      | NavigableString s :: _ | Comment s :: _ => Some (inr s)
      | [] => None
      end
  | [] => None
  end.

(** The object [BeautifulSoup(...)] returns: the node named
    [[document]] above the top-level nodes. *)
Definition BeautifulSoup (doc : list node) : element :=
  (Element "[document]" [] doc, []).

Definition markup : Markup := Build_Markup (list node) element.

Definition bs4 : @Bs4 markup :=
  @Build_Bs4 markup BeautifulSoup select select_one get_text get
             find find_all find_next next_sibling.

End MiniSoup.

(** ** Observations on a run *)

Section Observations.

Context `{Bs4} (env : Env).

(** The messages sent to the notification channel, newest first. *)
Definition sent (w : history) : list message :=
  omap (fun ev => match ev with EvSend m => Some m | _ => None end) w.

(** The HTTP requests issued, with the proxy configuration of each. *)
Definition requests (w : history) : list (string * gmap string string) :=
  omap (fun ev => match ev with EvGet url proxies _ => Some (url, proxies) | _ => None end) w.

(** The categories whose parsing was started. *)
Definition started (w : history) : list string :=
  omap (fun ev => match ev with EvSend (MsgStartParse url) => Some url | _ => None end) w.

(** The per-category failure notifications. *)
Definition category_errors (w : history) : list (string * string) :=
  omap (fun ev => match ev with
                  | EvSend (MsgErrorParsingCategory name e) => Some (name, e)
                  | _ => None
                  end) w.

(** An exception of no class of [requests.exceptions]: one that no
    [except] clause of [_fetch_page] names. *)
Definition not_of_requests (e : exn) : Prop :=
  forall cls msg, e <> RequestsExn cls msg.

(** The parts of the parser that fetching never changes. *)
Definition same_setup (s s' : DoskiParser) : Prop :=
  config s' = config s /\ proxy_list s' = proxy_list s /\ robots_parser s' = robots_parser s.

(** [self.config.get('timeout', 10)] *)
Definition timeout_of (st : state) : nat := default 10 (cfg_timeout (config (self st))).

(** The state after [n] consecutive calls of [_rotate_proxy]. *)
Fixpoint rotate_times (n : nat) (st : state) : state :=
  match n with
  | O => st
  | S n' => rotate_times n' (snd (_rotate_proxy env st))
  end.

(** A listing with its [parsed_at] field blanked. *)
Definition forget_parsed_at (l : listing) : listing :=
  {| l_id := l_id l; l_title := l_title l; l_url := l_url l; l_price := l_price l;
     l_description := l_description l; l_parsed_at := "" |}.

Definition forget_item_parsed_at (l : item_listing) : item_listing :=
  {| i_id := i_id l; i_title := i_title l; i_description := i_description l;
     i_price := i_price l; i_location := i_location l; i_date := i_date l;
     i_url := i_url l; i_images := i_images l; i_parsed_at := "" |}.

(** What a run hands back, up to [parsed_at]. *)
Definition listings_modulo_parsed_at (r : outcome (list listing)) : outcome (list listing) :=
  match r with
  | Return ls => Return (map forget_parsed_at ls)
  | Raise e => Raise e
  end.

Definition item_modulo_parsed_at (r : outcome (option item_listing))
  : outcome (option item_listing) :=
  match r with
  | Return l => Return (option_map forget_item_parsed_at l)
  | Raise e => Raise e
  end.

(** An absolute URL: it starts with a scheme, a letter followed by
    letters, digits, [+], [-] or [.] up to a colon. *)
Definition is_alpha (c : ascii) : bool :=
  let n := nat_of_ascii c in
  ((65 <=? n)%nat && (n <=? 90)%nat) || ((97 <=? n)%nat && (n <=? 122)%nat).

Definition is_scheme_char (c : ascii) : bool :=
  let n := nat_of_ascii c in
  is_alpha c || ((48 <=? n)%nat && (n <=? 57)%nat)
  || (n =? 43)%nat || (n =? 45)%nat || (n =? 46)%nat.

Fixpoint scheme_tail (s : string) : bool :=
  match s with
  | EmptyString => false
  | String c rest =>
      if Ascii.eqb c ":" then true
      else if is_scheme_char c then scheme_tail rest else false
  end.

Definition is_absolute_url (url : string) : bool :=
  match url with
  | EmptyString => false
  | String c rest => is_alpha c && scheme_tail rest
  end.





(** Where a returned listing comes from. *)
Definition from_row (rows : list Tag) (l : listing) : Prop :=
  exists row title_elem href,
    row ∈ rows /\ select_one row "a.sbj" = Some title_elem /\
    get title_elem "href" = Some href /\
    l_title l = get_text title_elem /\
    urljoin env base_url href = inl (l_url l) /\
    l_id l = id_of_url (l_url l).

(** A computation that neither reads nor changes the state. *)
Definition stateless {A} (c : M A) : Prop :=
  exists r : outcome A, forall st : state, c st = (r, st).

(** The condition under which the source keeps a link. *)
Definition link_qualifies (href text : string) : Prop :=
  href <> "" /\
  3 <= String.length text <= 49 /\
  forall skip, skip ∈ skip_list -> Py.str_in skip (Py.lower href) = false.

(** The set [seen] after the loop has gone through [categories]. *)
Definition seen_after (seen : gset string) (categories : list category) : gset string :=
  fold_left (fun s cat => {[c_url cat]} ∪ s) categories seen.

(** The category that a collected link becomes: its [href] resolved by
    [urljoin] to a URL that [validate_url] accepts. *)
Definition kept_category (ld : link_data) : option category :=
  match category_of_link env ld with
  | inl found => found
  | inr _ => None
  end.

(** The categories one selector contributes. *)
Definition categories_of_selector (soup : Tag) (selector : string) : list category :=
  omap kept_category (links_of_selector soup selector).

(** [selector] produced a category with this URL. *)
Definition resolves_to (soup : Tag) (url : string) (selector : string) : Prop :=
  url ∈ map c_url (categories_of_selector soup selector).

#[global] Instance resolves_to_dec (soup : Tag) (url selector : string) :
  Decision (resolves_to soup url selector).
Proof. unfold resolves_to. apply _. Defined.

(** [c] adds to the history only events that satisfy [P]. *)
Definition emits (P : event -> Prop) {A} (c : M A) : Prop :=
  forall st : state, exists new, world (snd (c st)) = (new ++ world st) /\ Forall P new.

(** Neither the start of a category nor a category failure notice. *)
Definition inner_event (ev : event) : Prop :=
  match ev with
  | EvSend (MsgStartParse _) | EvSend (MsgErrorParsingCategory _ _) => False
  | _ => True
  end.

(** The listings handed to [storage.save_listing], newest first. *)
Definition saved (w : history) : list listing :=
  omap (fun ev => match ev with EvSaveListing l => Some l | _ => None end) w.

(** Any call but [storage.save_listing]. *)
Definition not_a_save (ev : event) : Prop :=
  match ev with
  | EvSaveListing _ => False
  | _ => True
  end.

(** The proxy at a position of the pool. *)
Definition proxy_at (s : DoskiParser) (index : nat) : string :=
  default "" (proxy_list s !! index).

(** A proxy that [_set_proxy] can install: not a SOCKS one, or SOCKS with
    the support package present. *)
Definition installable (proxy_url : string) : Prop :=
  Py.startswith proxy_url "socks" = false \/ has_socks env = true.

(** The listing that one row of the table yields, with [parsed_at] left
    blank; [None] for a row without a title anchor, and for one whose
    anchor has no [href] or an [href] that [urljoin] refuses. *)
Definition row_listing (row : Tag) : option listing :=
  match select_one row "a.sbj" with
  | Some title_elem =>
      match get title_elem "href" with
      | Some href =>
          match urljoin env base_url href with
          | inl url =>
              Some {| l_id := id_of_url url;
                      l_title := get_text title_elem;
                      l_url := url;
                      l_price :=
                        match select_one row ("td[align=" +:+ quoted "right" +:+ "] b") with
                        | Some price_elem => get_text price_elem
                        | None => ""
                        end;
                      l_description := row_description title_elem;
                      l_parsed_at := "" |}
          | inr _ => None
          end
      | None => None
      end
  | None => None
  end.

(** [c in s] for one character. *)
Definition char_in (c : ascii) (s : string) : bool := Py.str_in (String c EmptyString) s.


End Observations.

(** ** Example documents and collaborators

    Concrete pages, given as the parse trees of [MiniSoup], and concrete
    behaviours of the collaborators, on which the properties below are
    exercised. *)

Section Examples.

#[local] Existing Instance MiniSoup.markup.
#[local] Existing Instance MiniSoup.bs4.

Import MiniSoup.

(** A resolver for the references of the example pages, after
    [urllib.parse.urljoin]: a reference that has a scheme once its leading
    white space is dropped is handed back as it was written, unless its
    authority opens a bracket that is never closed, which is refused with
    a [ValueError]; any other reference is appended to the base. *)
Definition demo_urljoin (base href : string) : string + exn :=
  let reference := Py.lstrip href in
  if is_absolute_url reference then
    if Py.str_in "://[" reference && negb (Py.str_in "]" reference)
    then inr (ValueError "Invalid IPv6 URL")
    else inl href
  else match reference with
       | EmptyString => inl base
       | String "/" _ => inl (base +:+ reference)
       | _ => inl (base +:+ "/" +:+ reference)
       end.

(** What [session.get] does, as a function of the calls made so far, the
    URL, the proxy configuration and the timeout. *)
Definition Transport : Type :=
  history -> string -> gmap string string -> nat -> Response + exn.

(** The collaborators, for a given transport, navigation outcome and
    rendered page per URL. *)
Definition demo_env
           (transport : Transport)
           (navigate : string -> unit + exn)
           (page : string -> html) : Env :=
  {| urljoin := demo_urljoin;
     validate_url := fun url => Py.startswith url "http";
     hash := fun s => (Z.of_nat (String.length s) * 1000003 + 7)%Z;
     has_socks := false;
     now := fun w => "2024-05-01T10:00:" +:+ Py.str_of_int (Z.of_nat (length w));
     session_get := transport;
     chrome := fun _ => inl tt;
     set_page_load_timeout := fun _ _ => inl tt;
     driver_get := fun _ url => navigate url;
     page_source :=
       fun w => inl (match w with
                     | _ :: EvDriverGet url :: _ => page url
                     | _ => ([] : list node)
                     end);
     driver_quit := fun _ => inl tt;
     write_file := fun _ _ _ => inl tt;
     extract_text := fun _ _ => inl tt;
     save_listing := fun _ _ => inl tt;
     get_total_count :=
       fun w => length (omap (fun ev => match ev with
                                        | EvSaveListing l => Some l
                                        | _ => None
                                        end) w) |}.

(** A transport on which every connection is refused. *)
Definition refusing : Transport :=
  fun _ _ _ _ => inr (RequestsExn ConnectionError "connection refused").

(** The response that carries a page with status 200. *)
Definition ok_response (page : html) : Response :=
  {| status_code := 200; text := page |}.

(** A transport that serves one page with status 200. *)
Definition serving (page : html) : Transport :=
  fun _ _ _ _ => inl (ok_response page).

(** A category page: a header row and two listings. *)
Definition table_page : html :=
  [Element "table" [("class", "ml")]
     [Element "tr" [] [Element "th" [] [NavigableString "Title"]];
      Element "tr" []
        [Element "td" []
           [Element "a" [("class", "sbj"); ("href", "/msg/101.html")]
              [NavigableString " Sofa "];
            Element "br" [] [];
            NavigableString " almost new "];
         Element "td" [("align", "right")] [Element "b" [] [NavigableString "100"]]];
      Element "tr" []
        [Element "td" []
           [Element "a" [("class", "sbj"); ("href", "/msg/102.html")]
              [NavigableString "Bike"]]]]].

(** A category page whose only title anchor has no [href]. *)
Definition page_anchor_without_href : html :=
  [Element "table" [("class", "ml")]
     [Element "tr" []
        [Element "td" [] [Element "a" [("class", "sbj")] [NavigableString "Sofa"]]]]].

(** A category page with a title anchor that has no text, and one whose
    [href] has a space before its scheme. *)
Definition page_odd_anchors : html :=
  [Element "table" [("class", "ml")]
     [Element "tr" []
        [Element "td" [] [Element "a" [("class", "sbj"); ("href", "/msg/103.html")] []]];
      Element "tr" []
        [Element "td" []
           [Element "a" [("class", "sbj"); ("href", " http://example.com/1.html")]
              [NavigableString "Sofa"]]]]].



(** A generic item with a heading and a price, and no link. *)
Definition item_without_link : Tag :=
  (Element "div" [("class", "item")]
     [Element "h2" [] [NavigableString "Sofa"];
      Element "span" [("class", "price")] [NavigableString "100"]],
   [{| fr_name := "[document]"; fr_attrs := []; fr_after := [] |}]).

(** A generic item with a linked heading. *)
Definition item_with_link : Tag :=
  (Element "div" [("class", "item")]
     [Element "h2" [] [Element "a" [("href", "/msg/7.html")] [NavigableString "Bike"]]],
   [{| fr_name := "[document]"; fr_attrs := []; fr_after := [] |}]).

(** A home page with three distinct categories among its links. *)
Definition home_page : html :=
  [Element "html" []
     [Element "body" []
        [Element "nav" []
           [Element "a" [("href", "/cat-transport/")] [NavigableString "Transport"];
            Element "a" [("href", "/login")] [NavigableString "Sign in"];
            Element "a" [("class", "category-link"); ("href", "/city/moscow/")]
              [NavigableString " Moscow "];
            Element "a" [("href", "/about")] [NavigableString "About us"];
            Element "a" [("href", "/cat-transport/")] [NavigableString "Cars again"];
            Element "a" [("href", "/x")] [NavigableString "ab"]]]]].

(** A home page whose only link has an empty [href]. *)
Definition home_page_empty_href : html :=
  [Element "a" [("href", "")] [NavigableString "Hello"]].

(** A home page with a link whose [href] cannot be split. *)
Definition home_page_malformed_href : html :=
  [Element "a" [("href", "/cat-transport/")] [NavigableString "Transport"];
   Element "a" [("href", "http://[bad")] [NavigableString "Partners"]].

Definition moscow : category :=
  {| c_name := "Moscow"; c_url := "https://www.doski.ru/city/moscow/";
     c_found_by := Some ("a[href*=" +:+ quoted "/city/" +:+ "]") |}.

Definition demo_config (enabled rotate : bool) : Config :=
  {| proxy_enabled := enabled; cfg_proxy_list := []; proxy_http := ""; proxy_https := "";
     proxy_socks := ""; proxy_rotate := rotate; cfg_timeout := None;
     max_categories_per_session := 3; category_delay := 1 |}.

(** A parser with a pool of proxies, the one at [index] active. *)
Definition parser_with_pool (pool : list string) (index : nat) (rotate : bool) : state :=
  {| self := {| config := demo_config true rotate; proxy_list := pool;
                current_proxy_index := index;
                session_proxies := proxies_for (default "" (pool !! index));
                robots_parser := None |};
     world := [] |}.

(** A parser that connects directly. *)
Definition direct_parser : state :=
  {| self := init_parser (demo_config false false) None; world := [] |}.

Definition vacancies : category :=
  {| c_name := "Vacancies"; c_url := "https://www.doski.ru/cat-rabota/vakansii/";
     c_found_by := None |}.

(** No connection goes through; every category renders [table_page]. *)
Definition quiet_env : Env := demo_env refusing (fun _ => inl tt) (fun _ => table_page).

(** The home page is served. *)
Definition home_env (page : html) : Env :=
  demo_env (serving page) (fun _ => inl tt) (fun _ => table_page).

(** Every category renders a page whose title anchor has no [href]. *)
Definition broken_page_env : Env :=
  demo_env refusing (fun _ => inl tt) (fun _ => page_anchor_without_href).

(** The browser times out on every page load. *)
Definition timeout_env : Env :=
  demo_env refusing (fun _ => inr (TimeoutException "page load timed out"))
           (fun _ => table_page).

Definition three_proxies : list string :=
  ["http://proxy1:8080"; "http://proxy2:8080"; "http://proxy3:8080"].

(** One proxy, no rotation. *)
Definition one_proxy : state := parser_with_pool ["http://proxy1:8080"] 0 false.

(** [one_proxy] after its only attempt through the proxy. *)
Definition after_proxy_attempt : state :=
  {| self := self one_proxy;
     world := [EvGet (c_url vacancies) (proxies_for "http://proxy1:8080") 10] |}.


(** [direct_parser] at the point where [parse_category] fails on the page
    of [broken_page_env]. *)
Definition after_broken_page : state :=
  {| self := self direct_parser;
     world := [EvExtractText page_anchor_without_href;
               EvWriteFile "debug_category.html" page_anchor_without_href;
               EvQuit; EvPageSource; EvSleep 3; EvDriverGet (c_url vacancies);
               EvSetPageLoadTimeout 20; EvChrome;
               EvSend (MsgStartParse (c_url vacancies))] |}.

(** A transport that answers every request with status 404. *)
Definition not_found : Transport :=
  fun _ _ _ _ => inl {| status_code := 404; text := ([] : list node) |}.

(** A transport that serves a page to direct connections only. *)
Definition direct_only (page : html) : Transport :=
  fun _ _ proxies _ =>
    if bool_decide (proxies = ∅) then inl (ok_response page)
    else inr (RequestsExn ProxyError "cannot connect to proxy").

(** The text of the [ValueError] that requests raises for a timeout of
    0. *)
Definition zero_timeout_message : string :=
  "Attempted to set connect timeout to 0, but the timeout "
  +:+ "cannot be set to a value less than or equal to 0.".

(** A transport that, as requests does, refuses a timeout of 0 with a
    [ValueError]; otherwise the connection is refused. *)
Definition rejecting_zero_timeout : Transport :=
  fun _ _ _ timeout =>
    if (timeout =? 0)%nat
    then inr (ValueError zero_timeout_message)
    else inr (RequestsExn ConnectionError "connection refused").

Definition zero_timeout_env : Env :=
  demo_env rejecting_zero_timeout (fun _ => inl tt) (fun _ => table_page).

(** A parser that connects directly, configured with [timeout = 0]. *)
Definition zero_timeout_parser : state :=
  {| self := init_parser
               {| proxy_enabled := false; cfg_proxy_list := []; proxy_http := "";
                  proxy_https := ""; proxy_socks := ""; proxy_rotate := false;
                  cfg_timeout := Some 0; max_categories_per_session := 3;
                  category_delay := 1 |}
               None;
     world := [] |}.

(** Rules that disallow [/private], with the refusal of [urlsplit] for a
    URL whose authority opens a bracket that is never closed. *)
Definition private_rules : string -> bool + exn :=
  fun url =>
    if Py.str_in "://[" url && negb (Py.str_in "]" url)
    then inr (ValueError "Invalid IPv6 URL")
    else inl (negb (Py.str_in "/private" url)).

(** A parser that connects directly and has loaded [private_rules]. *)
Definition parser_with_rules : state :=
  {| self := init_parser (demo_config false false) (Some private_rules); world := [] |}.

Definition not_found_env : Env := demo_env not_found (fun _ => inl tt) (fun _ => table_page).

Definition direct_only_env : Env :=
  demo_env (direct_only table_page) (fun _ => inl tt) (fun _ => table_page).

(** A pool whose second proxy is a SOCKS one. *)
Definition pool_with_socks : list string := ["http://proxy1:8080"; "socks5://proxy2:1080"].

(** A configuration with individually configured proxies. *)
Definition separate_proxies : Config :=
  {| proxy_enabled := true; cfg_proxy_list := []; proxy_http := "http://proxy1:8080";
     proxy_https := ""; proxy_socks := "socks5://proxy2:1080"; proxy_rotate := true;
     cfg_timeout := None; max_categories_per_session := 3; category_delay := 1 |}.

End Examples.

(** * Properties *)

Ltac unfold_m :=
  unfold bind, ret, raise, may_raise, try_except, call, get_self, put_self,
         send_message, sleep, datetime_now, storage_total_count in *.

Section ProxyRotation.

Context `{Bs4} (env : Env).

Lemma set_proxy_frame (proxy_url : string) (st : state) :
  exists ok p,
    _set_proxy env proxy_url st
    = (Return ok, {| self := with_proxies (self st) p; world := world st |}).
Proof.
  unfold _set_proxy. unfold_m. simpl.
  destruct (Py.startswith proxy_url "socks"); [destruct (has_socks env)|]; simpl.
  - exists true, (proxies_for proxy_url). reflexivity.
  - exists false, (session_proxies (self st)).
    destruct st as [[] ?]; reflexivity.
  - exists true, (proxies_for proxy_url). reflexivity.
Qed.

Lemma rotate_proxy_small (st : state) :
  length (proxy_list (self st)) <= 1 -> _rotate_proxy env st = (Return false, st).
Proof.
  intros HK. unfold _rotate_proxy. unfold_m.
  destruct (Nat.leb_spec (length (proxy_list (self st))) 1); [reflexivity | lia].
Qed.

Lemma rotate_proxy_step (st : state) :
  2 <= length (proxy_list (self st)) ->
  exists ok p,
    _rotate_proxy env st
    = (Return ok,
       {| self := with_proxies
                    (with_index (self st)
                       ((current_proxy_index (self st) + 1) mod length (proxy_list (self st))))
                    p;
          world := world st |}).
Proof.
  intros HK. unfold _rotate_proxy. unfold_m.
  destruct (Nat.leb_spec (length (proxy_list (self st))) 1); [lia|].
  simpl.
  set (i := (current_proxy_index (self st) + 1) mod length (proxy_list (self st))).
  assert (Hi : i < length (proxy_list (self st))) by (apply Nat.mod_upper_bound; lia).
  destruct (lookup_lt_is_Some_2 _ _ Hi) as [new_proxy Hnew].
  rewrite Hnew.
  destruct (set_proxy_frame new_proxy
              {| self := with_index (self st) i; world := world st |}) as (ok & p & E).
  exists ok, p. exact E.
Qed.

Lemma rotate_times_index (n : nat) :
  forall st : state,
    2 <= length (proxy_list (self st)) ->
    current_proxy_index (self st) < length (proxy_list (self st)) ->
    current_proxy_index (self (rotate_times env n st))
    = (current_proxy_index (self st) + n) mod length (proxy_list (self st)).
Proof.
  induction n as [|n IH]; intros st HK Hi; simpl.
  - rewrite Nat.add_0_r. symmetry. apply Nat.mod_small, Hi.
  - destruct (rotate_proxy_step st HK) as (ok & p & E). rewrite E. simpl.
    rewrite IH; simpl.
    + rewrite Nat.Div0.add_mod_idemp_l. f_equal. lia.
    + exact HK.
    + apply Nat.mod_upper_bound. lia.
Qed.

(** The index stays inside the pool: it is 0 after [__init__], and a
    rotation leaves it below the size of the pool. *)
Lemma rotation_keeps_index_in_range (st : state) :
  current_proxy_index (self st) < length (proxy_list (self st)) ->
  current_proxy_index (self (snd (_rotate_proxy env st)))
  < length (proxy_list (self (snd (_rotate_proxy env st)))).
Proof.
  intros Hi.
  destruct (Nat.le_gt_cases (length (proxy_list (self st))) 1) as [Hs | Hl].
  - rewrite rotate_proxy_small by exact Hs. exact Hi.
  - destruct (rotate_proxy_step st Hl) as (ok & p & E). rewrite E. simpl.
    apply Nat.mod_upper_bound. lia.
Qed.

Lemma setup_proxy_index (cfg : Config) (robots : option (string -> bool + exn)) (w : history) :
  current_proxy_index
    (self (snd (_setup_proxy env {| self := init_parser cfg robots; world := w |}))) = 0.
Proof.
  unfold _setup_proxy. unfold_m. simpl.
  destruct (proxy_enabled cfg); simpl; [|reflexivity].
  match goal with |- context [match ?pool with [] => _ | _ :: _ => _ end] =>
    destruct pool as [|first rest] eqn:Hpool end; [reflexivity|].
  match goal with |- context [_set_proxy env first ?s] =>
    destruct (set_proxy_frame first s) as (ok & p & E) end.
  rewrite E. reflexivity.
Qed.

(** C5.  [_rotate_proxy] leaves the parser untouched and answers [False]
    when the pool has 0 or 1 entries; with a pool of [K >= 2] entries it
    moves [current_proxy_index] to the next position modulo [K], and [K]
    calls in a row bring the index back to where it started. *)
Theorem rotate_proxy_circular (st : state) :
  let K := length (proxy_list (self st)) in
  (K <= 1 -> _rotate_proxy env st = (Return false, st)) /\
  (2 <= K ->
   current_proxy_index (self (snd (_rotate_proxy env st)))
   = (current_proxy_index (self st) + 1) mod K) /\
  (2 <= K -> current_proxy_index (self st) < K ->
   current_proxy_index (self (rotate_times env K st)) = current_proxy_index (self st)).
Proof.
  intros K. split; [|split].
  - apply rotate_proxy_small.
  - intros HK. destruct (rotate_proxy_step st HK) as (ok & p & E).
    rewrite E. reflexivity.
  - intros HK Hi. rewrite (rotate_times_index K st HK Hi). fold K.
    replace (current_proxy_index (self st) + K) with (current_proxy_index (self st) + 1 * K) by lia.
    rewrite Nat.Div0.mod_add. apply Nat.mod_small, Hi.
Qed.

End ProxyRotation.

Section ResilientFetcher.

Context `{Bs4} (env : Env).

Lemma same_setup_refl (s : DoskiParser) : same_setup s s.
Proof. repeat split. Qed.

Lemma same_setup_trans (s1 s2 s3 : DoskiParser) :
  same_setup s1 s2 -> same_setup s2 s3 -> same_setup s1 s3.
Proof. unfold same_setup. intros (-> & -> & ->) (-> & -> & ->). auto. Qed.

Lemma timeout_of_same_setup (st st' : state) :
  same_setup (self st) (self st') -> timeout_of st' = timeout_of st.
Proof. intros (Hc & _). unfold timeout_of. rewrite Hc. reflexivity. Qed.

Lemma issubclass_RequestException (cls : requests_exception) :
  issubclass cls RequestException = true.
Proof. destruct cls; reflexivity. Qed.

Lemma with_proxies_restore (s : DoskiParser) (p : gmap string string) :
  with_proxies (with_proxies s p) (session_proxies s) = s.
Proof. destruct s; reflexivity. Qed.

Lemma state_eta (st : state) : {| self := self st; world := world st |} = st.
Proof. destruct st; reflexivity. Qed.

(** The request together with [raise_for_status]: what the [try] bodies of
    [_fetch_page] do. *)
Lemma get_checked {A} (url : string) (k : Response -> A) (st : state) :
  (let* response := do_session_get env url in
   raise_for_status response ;;; ret (k response)) st
  = (match session_get env (world st) url (session_proxies (self st)) (timeout_of st) with
     | inl response =>
         if response_ok response then Return (k response)
         else Raise (RequestsExn HTTPError "HTTP error")
     | inr e => Raise e
     end,
     {| self := self st;
        world := EvGet url (session_proxies (self st)) (timeout_of st) :: world st |}).
Proof.
  unfold do_session_get, raise_for_status, response_ok, timeout_of. unfold_m. simpl.
  destruct (session_get env _ _ _ _) as [response | e]; simpl; [|reflexivity].
  destruct (is_error_status response); reflexivity.
Qed.

Lemma rotate_proxy_frame (st : state) :
  exists ok st',
    _rotate_proxy env st = (Return ok, st') /\
    world st' = world st /\ same_setup (self st) (self st').
Proof.
  destruct (Nat.le_gt_cases (length (proxy_list (self st))) 1) as [Hs | Hl].
  - exists false, st. rewrite rotate_proxy_small by exact Hs.
    split; [reflexivity | split; [reflexivity | apply same_setup_refl]].
  - destruct (rotate_proxy_step env st Hl) as (ok & p & E).
    eexists ok, _. split; [exact E|]. simpl. repeat split.
Qed.

(** The [except] clauses of the loop, for an exception of
    [requests.exceptions]: they do not raise and leave the history as it
    is. *)
Lemma fetch_attempt_handled (cls : requests_exception) (msg : string) (st : state) :
  exists f st',
    match
      (if issubclass cls ProxyError || issubclass cls ConnectionError
       then Some (let* s := get_self in
                  if proxy_rotate (config s)
                  then let* rotated := _rotate_proxy env in
                       if rotated then ret (@Continue Response)
                       else ret (@Break Response)
                  else ret (@Break Response))
       else if issubclass cls RequestException
            then Some (ret (@Break Response)) else None)
    with
    | Some h => h st
    | None => (Raise (RequestsExn cls msg), st)
    end = (Return f, st') /\
    world st' = world st /\ same_setup (self st) (self st') /\
    (forall response, f <> ReturnValue response).
Proof.
  destruct (issubclass cls ProxyError || issubclass cls ConnectionError).
  - unfold_m. simpl. destruct (proxy_rotate (config (self st))).
    + destruct (rotate_proxy_frame st) as (ok & st' & E & Hw & Hs).
      rewrite E. exists (if ok then Continue else Break), st'.
      destruct ok; (split; [reflexivity | split; [exact Hw | split; [exact Hs | discriminate]]]).
    + exists Break, st. repeat split; discriminate.
  - rewrite issubclass_RequestException. exists Break, st.
    repeat split; discriminate.
Qed.

(** One turn of the loop issues exactly one request.  It raises only what
    the transport raised outside [requests.exceptions], and it hands back
    a response only when its status is not an error. *)
Lemma fetch_attempt_spec (url : string) (st : state) :
  exists r st',
    fetch_attempt env url st = (r, st') /\
    world st' = EvGet url (session_proxies (self st)) (timeout_of st) :: world st /\
    same_setup (self st) (self st') /\
    match r with
    | Return f => forall response, f = ReturnValue response -> response_ok response = true
    | Raise e =>
        session_get env (world st) url (session_proxies (self st)) (timeout_of st) = inr e /\
        not_of_requests e
    end.
Proof.
  unfold fetch_attempt, try_except. rewrite get_checked.
  set (st1 := {| self := self st; world := _ |}).
  destruct (session_get env (world st) url (session_proxies (self st)) (timeout_of st))
    as [response | e].
  - destruct (response_ok response) eqn:Hok.
    + exists (Return (ReturnValue response)), st1. repeat split. intros r [= <-]. exact Hok.
    + destruct (fetch_attempt_handled HTTPError "HTTP error" st1)
        as (f & st' & E & Hw & Hs & Hr).
      exists (Return f), st'. split; [exact E|]. split; [exact Hw|]. split; [exact Hs|].
      intros r ->. contradiction (Hr r eq_refl).
  - destruct e as [cls msg| | | | | |];
      try (eexists (Raise _), st1; split; [reflexivity|]; split; [reflexivity|];
           split; [apply same_setup_refl|]; split; [reflexivity|];
           intros ? ?; discriminate).
    destruct (fetch_attempt_handled cls msg st1) as (f & st' & E & Hw & Hs & Hr).
    exists (Return f), st'. split; [exact E|]. split; [exact Hw|]. split; [exact Hs|].
    intros r ->. contradiction (Hr r eq_refl).
Qed.

Lemma fetch_attempts_spec (url : string) (turns : nat) :
  forall st : state,
    exists r st',
      fetch_attempts env url turns st = (r, st') /\
      sent (world st') = sent (world st) /\
      same_setup (self st) (self st') /\
      match r with
      | Return looped =>
          forall response, looped = Some response -> response_ok response = true
      | Raise e =>
          not_of_requests e /\
          exists w proxies, session_get env w url proxies (timeout_of st) = inr e
      end.
Proof.
  induction turns as [|turns IH]; intros st; simpl.
  - exists (Return None), st. repeat split; discriminate.
  - unfold bind at 1.
    destruct (fetch_attempt_spec url st) as (r1 & st1 & E & Hw & Hs & Hr). rewrite E.
    assert (Hsent : sent (world st1) = sent (world st)) by (rewrite Hw; reflexivity).
    destruct r1 as [[| | response] | e].
    + destruct (IH st1) as (r & st' & E' & Hw' & Hs' & Hr').
      exists r, st'. split; [exact E'|]. split; [congruence|].
      split; [eapply same_setup_trans; eassumption|].
      destruct r as [looped | e]; [exact Hr'|].
      rewrite <- (timeout_of_same_setup st st1 Hs). exact Hr'.
    + exists (Return None), st1. repeat split; try apply Hs; try discriminate. exact Hsent.
    + exists (Return (Some response)), st1. repeat split; try apply Hs. exact Hsent.
      intros r [= <-]. apply Hr. reflexivity.
    + exists (Raise e), st1. split; [reflexivity|]. split; [exact Hsent|]. split; [exact Hs|].
      destruct Hr as [Hget Hnot]. split; [exact Hnot | eauto].
Qed.

(** The direct attempt, when it is made. *)
Lemma fetch_without_proxy_direct (url : string) (st : state) :
  session_proxies (self st) <> ∅ ->
  proxy_enabled (config (self st)) = true ->
  fetch_without_proxy env url st
  = match session_get env (world st) url ∅ (timeout_of st) with
    | inl response =>
        if response_ok response then
          (Return (Some response),
           {| self := with_proxies (self st) ∅;
              world := EvGet url ∅ (timeout_of st) :: world st |})
        else
          (Return None,
           {| self := self st; world := EvGet url ∅ (timeout_of st) :: world st |})
    | inr (RequestsExn _ _) =>
        (Return None,
         {| self := self st; world := EvGet url ∅ (timeout_of st) :: world st |})
    | inr e =>
        (Raise e,
         {| self := with_proxies (self st) ∅;
            world := EvGet url ∅ (timeout_of st) :: world st |})
    end.
Proof.
  intros Hp He. unfold fetch_without_proxy.
  unfold bind at 1, get_self at 1.
  rewrite bool_decide_eq_true_2, He by exact Hp. cbn [andb].
  unfold bind at 1, put_self at 1. unfold try_except. rewrite get_checked. simpl.
  change (default 10 (cfg_timeout (config (self st)))) with (timeout_of st).
  unfold timeout_of at 1. simpl.
  change (default 10 (cfg_timeout (config (self st)))) with (timeout_of st).
  destruct (session_get env (world st) url ∅ (timeout_of st)) as [response | e].
  - destruct (response_ok response); [reflexivity|]. simpl.
    unfold_m. simpl. rewrite with_proxies_restore. reflexivity.
  - destruct e as [cls msg| | | | | |]; try reflexivity.
    rewrite issubclass_RequestException. unfold_m. simpl.
    rewrite with_proxies_restore. reflexivity.
Qed.

Lemma fetch_without_proxy_skipped (url : string) (st : state) :
  bool_decide (session_proxies (self st) <> ∅) && proxy_enabled (config (self st)) = false ->
  fetch_without_proxy env url st = (Return None, st).
Proof.
  intros Hno. unfold fetch_without_proxy, bind, get_self. rewrite Hno. reflexivity.
Qed.

Lemma fetch_without_proxy_spec (url : string) (st : state) :
  exists r st',
    fetch_without_proxy env url st = (r, st') /\
    sent (world st') = sent (world st) /\
    same_setup (self st) (self st') /\
    match r with
    | Return direct =>
        forall response, direct = Some response -> response_ok response = true
    | Raise e =>
        not_of_requests e /\ session_get env (world st) url ∅ (timeout_of st) = inr e
    end.
Proof.
  destruct (bool_decide (session_proxies (self st) <> ∅) && proxy_enabled (config (self st)))
    eqn:Hcond.
  - apply andb_true_iff in Hcond as [Hp He]. apply bool_decide_eq_true_1 in Hp.
    rewrite (fetch_without_proxy_direct url st Hp He).
    destruct (session_get env (world st) url ∅ (timeout_of st)) as [response | e].
    + destruct (response_ok response) eqn:Hok.
      * eexists _, _. split; [reflexivity|]. split; [reflexivity|].
        split; [repeat split|]. intros r [= <-]. exact Hok.
      * eexists _, _. split; [reflexivity|]. split; [reflexivity|].
        split; [apply same_setup_refl | discriminate].
    + destruct e as [cls msg| | | | | |];
        try (eexists _, _; split; [reflexivity|]; split; [reflexivity|];
             split; [repeat split|]; split; [intros ? ?; discriminate | reflexivity]).
      eexists _, _. split; [reflexivity|]. split; [reflexivity|].
      split; [apply same_setup_refl | discriminate].
  - rewrite (fetch_without_proxy_skipped url st Hcond).
    exists (Return None), st. split; [reflexivity|]. split; [reflexivity|].
    split; [apply same_setup_refl | discriminate].
Qed.

(** [_fetch_page] up to the loop: the robots check. *)
Lemma fetch_page_unfold (url : string) (st : state) :
  _fetch_page env url st
  = match _can_fetch (self st) url with
    | inl true =>
        (let* looped := fetch_attempts env url (max_proxy_retries (self st)) in
         match looped with
         | Some response => ret (Some response)
         | None =>
             let* direct := fetch_without_proxy env url in
             match direct with
             | Some response => ret (Some response)
             | None => send_message (MsgErrorFetching url) ;;; ret None
             end
         end) st
    | inl false => (Return None, st)
    | inr e => (Raise e, st)
    end.
Proof.
  unfold _fetch_page. unfold bind at 1, get_self at 1. cbv beta iota.
  unfold bind at 1, may_raise.
  destruct (_can_fetch (self st) url) as [[|]|e]; reflexivity.
Qed.

(** A response that [_fetch_page] returns has a status that is not an
    error, and fetching leaves the setup of the parser as it was. *)
Lemma fetch_page_outcome (url : string) (st : state) :
  exists r st',
    _fetch_page env url st = (r, st') /\
    same_setup (self st) (self st') /\
    forall response, r = Return (Some response) -> response_ok response = true.
Proof.
  rewrite fetch_page_unfold.
  destruct (_can_fetch (self st) url) as [[|]|e].
  2: { exists (Return None), st. split; [reflexivity|]. split; [apply same_setup_refl | discriminate]. }
  2: { exists (Raise e), st. split; [reflexivity|]. split; [apply same_setup_refl | discriminate]. }
  unfold bind at 1.
  destruct (fetch_attempts_spec url (max_proxy_retries (self st)) st)
    as (r1 & st1 & E1 & _ & Hs1 & Hok1).
  rewrite E1. destruct r1 as [[response|] | e].
  - exists (Return (Some response)), st1. split; [reflexivity|]. split; [exact Hs1|].
    intros r [= <-]. apply Hok1. reflexivity.
  - unfold bind at 1.
    destruct (fetch_without_proxy_spec url st1) as (r2 & st2 & E2 & _ & Hs2 & Hok2).
    rewrite E2. destruct r2 as [[response|] | e].
    + exists (Return (Some response)), st2. split; [reflexivity|].
      split; [eapply same_setup_trans; eassumption|].
      intros r [= <-]. apply Hok2. reflexivity.
    + eexists (Return None), _. split; [reflexivity|].
      split; [eapply same_setup_trans; eassumption | discriminate].
    + exists (Raise e), st2. split; [reflexivity|].
      split; [eapply same_setup_trans; eassumption | discriminate].
  - exists (Raise e), st1. split; [reflexivity|]. split; [exact Hs1 | discriminate].
Qed.

(** C3, as the code has it.  [_fetch_page] turns every exception of
    [requests.exceptions], and every error status, into a retry or into
    the result [None].  When it returns a response, the status is not an
    error and nothing was notified; when it returns [None], either
    robots.txt disallows the URL and nothing was requested or sent, or
    exactly one notification was sent, the failure message for that URL.
    An exception leaves [_fetch_page] only when the robots check raised
    it, or when the transport raised it and it is not of a class of
    [requests.exceptions]; nothing is notified then. *)
Theorem fetch_page_contains_requests_faults (url : string) (st : state) :
  match _fetch_page env url st with
  | (Return (Some response), st') =>
      response_ok response = true /\ sent (world st') = sent (world st)
  | (Return None, st') =>
      (_can_fetch (self st) url = inl false /\ st' = st) \/
      (_can_fetch (self st) url = inl true /\
       sent (world st') = MsgErrorFetching url :: sent (world st))
  | (Raise e, st') =>
      sent (world st') = sent (world st) /\
      (_can_fetch (self st) url = inr e \/
       not_of_requests e /\
       exists w proxies, session_get env w url proxies (timeout_of st) = inr e)
  end.
Proof.
  rewrite fetch_page_unfold.
  destruct (_can_fetch (self st) url) as [[|]|e]; [|auto|auto].
  unfold bind at 1.
  destruct (fetch_attempts_spec url (max_proxy_retries (self st)) st)
    as (r1 & st1 & E1 & Hsent1 & Hs1 & Hr1).
  rewrite E1. destruct r1 as [[response|] | e].
  - split; [apply Hr1; reflexivity | exact Hsent1].
  - unfold bind at 1.
    destruct (fetch_without_proxy_spec url st1) as (r2 & st2 & E2 & Hsent2 & _ & Hr2).
    rewrite E2. destruct r2 as [[response|] | e].
    + split; [apply Hr2; reflexivity | congruence].
    + right. split; [reflexivity|]. simpl. congruence.
    + split; [congruence|]. right. destruct Hr2 as [Hnot Hget].
      split; [exact Hnot|]. rewrite (timeout_of_same_setup st st1 Hs1) in Hget. eauto.
  - split; [exact Hsent1|]. right. exact Hr1.
Qed.

(** C8.  When the loop over the proxies ends without a response while
    [session.proxies] is non-empty and proxying is enabled, [_fetch_page]
    issues exactly one more request, with the empty proxy configuration.
    A response whose status is not an error is returned; after an error
    status or an exception of [requests.exceptions] the parser gets its
    previous proxy configuration back and the result is [None] after the
    failure notification.  An exception of another class is not a failure
    that [_fetch_page] handles: it propagates, the session left without
    proxy and nothing notified. *)
Theorem fetch_page_direct_attempt (url : string) (st st1 : state) :
  _can_fetch (self st) url = inl true ->
  fetch_attempts env url (max_proxy_retries (self st)) st = (Return None, st1) ->
  session_proxies (self st1) <> ∅ ->
  proxy_enabled (config (self st1)) = true ->
  exists r st',
    _fetch_page env url st = (r, st') /\
    requests (world st') = (url, ∅) :: requests (world st1) /\
    match session_get env (world st1) url ∅ (timeout_of st1) with
    | inl response =>
        if response_ok response
        then r = Return (Some response) /\ sent (world st') = sent (world st1)
        else r = Return None /\ self st' = self st1 /\
             sent (world st') = MsgErrorFetching url :: sent (world st1)
    | inr (RequestsExn _ _) =>
        r = Return None /\ self st' = self st1 /\
        sent (world st') = MsgErrorFetching url :: sent (world st1)
    | inr e =>
        r = Raise e /\ self st' = with_proxies (self st1) ∅ /\
        sent (world st') = sent (world st1)
    end.
Proof.
  intros Hallowed Hloop Hp He.
  rewrite fetch_page_unfold, Hallowed.
  unfold bind at 1. rewrite Hloop.
  unfold bind at 1. rewrite (fetch_without_proxy_direct url st1 Hp He).
  destruct (session_get env (world st1) url ∅ (timeout_of st1)) as [response | e].
  - destruct (response_ok response).
    + eexists _, _. split; [reflexivity|]. simpl. auto.
    + eexists _, _. split; [reflexivity|]. simpl. auto.
  - destruct e; (eexists _, _; split; [reflexivity|]; simpl; auto).
Qed.

End ResilientFetcher.

Section ListingExtractor.

Context `{Bs4} (env : Env).

(** *** The table-row strategy *)

Lemma subscript_present (tag : Tag) (key value : string) (st : state) :
  get tag key = Some value -> subscript tag key st = (Return value, st).
Proof. intros E. unfold subscript. rewrite E. reflexivity. Qed.

Lemma subscript_absent (tag : Tag) (key : string) (st : state) :
  get tag key = None -> subscript tag key st = (Raise (KeyError key), st).
Proof. intros E. unfold subscript. rewrite E. reflexivity. Qed.

(** One turn of [for row in rows], by cases on the row. *)
Lemma extract_rows_skip (row : Tag) (rows : list Tag) (acc : list listing) (st : state) :
  select_one row "a.sbj" = None ->
  extract_rows env (row :: rows) acc st = extract_rows env rows acc st.
Proof. intros E. simpl. rewrite E. reflexivity. Qed.

Lemma extract_rows_no_href (row title_elem : Tag) (rows : list Tag) (acc : list listing)
      (st : state) :
  select_one row "a.sbj" = Some title_elem ->
  get title_elem "href" = None ->
  extract_rows env (row :: rows) acc st = (Raise (KeyError "href"), st).
Proof.
  intros E Hno. simpl. rewrite E. unfold bind at 1.
  rewrite (subscript_absent _ _ _ Hno). reflexivity.
Qed.

Lemma extract_rows_refused (row title_elem : Tag) (href : string) (e : exn)
      (rows : list Tag) (acc : list listing) (st : state) :
  select_one row "a.sbj" = Some title_elem ->
  get title_elem "href" = Some href ->
  urljoin env base_url href = inr e ->
  extract_rows env (row :: rows) acc st = (Raise e, st).
Proof.
  intros E Hhref Hurl. simpl. rewrite E. unfold bind at 1.
  rewrite (subscript_present _ _ _ _ Hhref). unfold bind at 1. rewrite Hurl. reflexivity.
Qed.

Lemma extract_rows_append (row title_elem : Tag) (href url : string) (rows : list Tag)
      (acc : list listing) (st : state) :
  select_one row "a.sbj" = Some title_elem ->
  get title_elem "href" = Some href ->
  urljoin env base_url href = inl url ->
  extract_rows env (row :: rows) acc st
  = extract_rows env rows
      (acc ++ [{| l_id := id_of_url url;
                  l_title := get_text title_elem;
                  l_url := url;
                  l_price := match select_one row ("td[align=" +:+ quoted "right" +:+ "] b") with
                             | Some price_elem => get_text price_elem
                             | None => ""
                             end;
                  l_description := row_description title_elem;
                  l_parsed_at := now env (world st) |}])
      {| self := self st; world := EvNow :: world st |}.
Proof.
  intros E Hhref Hurl. simpl. rewrite E. unfold bind at 1.
  rewrite (subscript_present _ _ _ _ Hhref). unfold bind at 1. rewrite Hurl. reflexivity.
Qed.

(** The four ways a turn can go. *)
Ltac row_cases row E Hhref Hurl :=
  let title_elem := fresh "title_elem" in
  let href := fresh "href" in
  let url := fresh "url" in
  let e := fresh "e" in
  destruct (select_one row "a.sbj") as [title_elem|] eqn:E;
  [ destruct (get title_elem "href") as [href|] eqn:Hhref;
    [ destruct (urljoin env base_url href) as [url|e] eqn:Hurl;
      [ rewrite ?(extract_rows_append _ _ _ _ _ _ _ E Hhref Hurl) in *
      | rewrite ?(extract_rows_refused _ _ _ _ _ _ _ E Hhref Hurl) in * ]
    | rewrite ?(extract_rows_no_href _ _ _ _ _ E Hhref) in * ]
  | rewrite ?(extract_rows_skip _ _ _ _ E) in * ].










Lemma extract_rows_from_row (rows : list Tag) :
  forall (acc ls : list listing) (st st' : state),
    extract_rows env rows acc st = (Return ls, st') ->
    exists new, ls = (acc ++ new) /\ Forall (from_row env rows) new.
Proof.
  induction rows as [|row rows IH]; intros acc ls st st' E.
  - simpl in E. injection E as <- <-. exists []. rewrite app_nil_r. auto.
  - assert (Hweaken : forall new, Forall (from_row env rows) new -> Forall (from_row env (row :: rows)) new).
    { intros new Hf. eapply Forall_impl; [exact Hf|]. intros l (r & t & h & Hin & Hrest).
      exists r, t, h. split; [apply elem_of_cons; auto | exact Hrest]. }
    row_cases row Hsel Hhref Hurl; try discriminate.
    + destruct (IH _ _ _ _ E) as (new & -> & Hnew).
      eexists (_ :: new). rewrite <- app_assoc. split; [reflexivity|].
      constructor; [|apply Hweaken, Hnew].
      exists row, title_elem, href. repeat split; try assumption. apply elem_of_cons; auto.
    + destruct (IH _ _ _ _ E) as (new & -> & Hnew). exists new. auto.
Qed.

(** Two runs over the same rows agree on everything but [parsed_at]. *)
Lemma extract_rows_modulo_parsed_at (rows : list Tag) :
  forall (acc1 acc2 : list listing) (st1 st2 : state),
    map forget_parsed_at acc1 = map forget_parsed_at acc2 ->
    listings_modulo_parsed_at (fst (extract_rows env rows acc1 st1))
    = listings_modulo_parsed_at (fst (extract_rows env rows acc2 st2)).
Proof.
  induction rows as [|row rows IH]; intros acc1 acc2 st1 st2 Hacc.
  - simpl. f_equal. exact Hacc.
  - row_cases row Hsel Hhref Hurl; try reflexivity.
    + apply IH. rewrite !map_app, Hacc. reflexivity.
    + apply IH, Hacc.
Qed.

(** *** The generic-item strategy *)

Lemma stateless_ret {A} (a : A) : stateless (ret a).
Proof. exists (Return a). reflexivity. Qed.

Lemma stateless_may_raise {A} (r : A + exn) : stateless (may_raise r).
Proof.
  destruct r as [a|e]; [apply stateless_ret|]. exists (Raise e). reflexivity.
Qed.

Lemma stateless_subscript (tag : Tag) (key : string) : stateless (subscript tag key).
Proof.
  unfold subscript. destruct (get tag key).
  - apply stateless_ret.
  - exists (Raise (KeyError key)). reflexivity.
Qed.

Lemma stateless_bind {A B} (c : M A) (k : A -> M B) :
  stateless c -> (forall a, stateless (k a)) -> stateless (bind c k).
Proof.
  intros [r Hc] Hk. destruct r as [a|e].
  - destruct (Hk a) as [rb Hb]. exists rb. intros st. unfold bind. rewrite Hc. apply Hb.
  - exists (Raise e). intros st. unfold bind. rewrite Hc. reflexivity.
Qed.

Lemma stateless_collect_images (images : list Tag) :
  forall acc : list string, stateless (collect_images env images acc).
Proof.
  induction images as [|img images IH]; intros acc; simpl.
  - apply stateless_ret.
  - apply stateless_bind; [apply stateless_subscript | intros src].
    apply stateless_bind; [apply stateless_may_raise | intros img_url; apply IH].
Qed.

Lemma stateless_item_url (item : Tag) : stateless (item_url env item).
Proof.
  unfold item_url. destruct (find item "a" "href").
  - apply stateless_bind; [apply stateless_subscript | intros; apply stateless_may_raise].
  - apply stateless_ret.
Qed.

(** [_parse_listing_item] reads the clock once, and the rest of its
    answer does not depend on the state. *)
Lemma parse_listing_item_unfold (item : Tag) :
  exists (r : outcome (string * list string)),
    forall st : state,
      _parse_listing_item env item st
      = (match r with
         | Return (url, images) =>
             let title := cascade_text item title_selectors in
             Return
               (if Py.truthy title then
                  Some {| i_id := item_id env url title; i_title := title;
                          i_description :=
                            match first_match item desc_selectors with
                            | Some desc_elem => Py.slice_to 200 (get_text desc_elem)
                            | None => ""
                            end;
                          i_price := cascade_text item price_selectors;
                          i_location := cascade_text item location_selectors;
                          i_date := ""; i_url := url; i_images := images;
                          i_parsed_at := now env (world st) |}
                else None)
         | Raise e => Raise e
         end,
         {| self := self st; world := EvNow :: world st |}) /\
      (forall url images, r = Return (url, images) ->
         item_url env item st = (Return url, st)).
Proof.
  destruct (stateless_item_url item) as [ru Hu].
  destruct (stateless_collect_images (find_all item "img" "src") []) as [ri Hi].
    destruct ru as [url|e].
  - destruct ri as [images|e].
    + exists (Return (url, images)). intros st. split.
      * unfold _parse_listing_item. unfold bind at 1, datetime_now, call. simpl.
        unfold bind at 1. rewrite Hu.
        unfold bind at 1. rewrite Hi. reflexivity.
      * intros ? ? [= <- <-]. apply Hu.
    + exists (Raise e). intros st. split; [|discriminate].
      unfold _parse_listing_item. unfold bind at 1, datetime_now, call. simpl.
      unfold bind at 1. rewrite Hu.
      unfold bind at 1. rewrite Hi. reflexivity.
  - exists (Raise e). intros st. split; [|discriminate].
    unfold _parse_listing_item. unfold bind at 1, datetime_now, call. simpl.
    unfold bind at 1. rewrite Hu. reflexivity.
Qed.

(** C2.  Extraction is idempotent up to [parsed_at]: two runs of
    [_extract_listings] on the same document, and two runs of
    [_parse_listing_item] on the same item, started in any two states of
    the same process (so with any two readings of the clock), give the
    same listings once [parsed_at] is blanked, or raise the same
    exception. *)
Theorem extraction_idempotent_modulo_parsed_at (st1 st2 : state) :
  (forall html_content : html,
     listings_modulo_parsed_at (fst (_extract_listings env html_content st1))
     = listings_modulo_parsed_at (fst (_extract_listings env html_content st2))) /\
  (forall item : Tag,
     item_modulo_parsed_at (fst (_parse_listing_item env item st1))
     = item_modulo_parsed_at (fst (_parse_listing_item env item st2))).
Proof.
  split.
  - intros html_content. unfold _extract_listings.
    apply extract_rows_modulo_parsed_at. reflexivity.
  - intros item. destruct (parse_listing_item_unfold item) as [r Hr].
    rewrite (proj1 (Hr st1)), (proj1 (Hr st2)). simpl.
    destruct r as [[url images]|e]; [|reflexivity]. simpl.
    destruct (Py.truthy (cascade_text item title_selectors)); reflexivity.
Qed.

Lemma truthy_nonempty (s : string) : Py.truthy s = true -> s <> "".
Proof. unfold Py.truthy. intros E ->. discriminate. Qed.

Lemma not_truthy_empty (s : string) : Py.truthy s = false -> s = "".
Proof.
  unfold Py.truthy. intros E. apply negb_false_iff in E. apply String.eqb_eq, E.
Qed.

(** C1, as the code has it.  Every listing returned by
    [_extract_listings] comes from a row of [table.ml]: its title is the
    text of the row's title anchor and its [url] is what [urljoin]
    returned for the anchor's [href] against the base URL.  Every listing
    returned by [_parse_listing_item] has a non-empty title, the first
    match of the title cascade; its [url] is what [urljoin] returned for
    the [href] of the item's first link, and is empty when the item has
    no link, the [id] being then the first 10 characters of the hash of
    the title.  An item is discarded exactly when its title is empty. *)
Theorem listings_title_and_url :
  (forall (html_content : html) (st st' : state) (ls : list listing),
     _extract_listings env html_content st = (Return ls, st') ->
     Forall (from_row env (select (BeautifulSoup html_content) "table.ml tr")) ls) /\
  (forall (item : Tag) (st st' : state) (r : option item_listing),
     _parse_listing_item env item st = (Return r, st') ->
     match r with
     | Some l =>
         i_title l = cascade_text item title_selectors /\
         i_title l <> "" /\
         match find item "a" "href" with
         | Some link =>
             exists href, get link "href" = Some href /\
                          urljoin env base_url href = inl (i_url l)
         | None =>
             i_url l = "" /\
             i_id l = Some (Py.slice_to 10 (Py.str_of_int (hash env (i_title l))))
         end
     | None => cascade_text item title_selectors = ""
     end).
Proof.
  split.
  - intros html_content st st' ls E. unfold _extract_listings in E.
    destruct (extract_rows_from_row _ _ _ _ _ E) as (new & -> & Hnew). exact Hnew.
  - intros item st st' r E.
    destruct (parse_listing_item_unfold item) as [ru Hr].
    destruct (Hr st) as [Hrun Hurl]. rewrite Hrun in E. clear Hrun.
    destruct ru as [[url images]|e]; [|discriminate].
    specialize (Hurl url images eq_refl).
    injection E as <- _.
    destruct (Py.truthy (cascade_text item title_selectors)) eqn:Htitle.
    + simpl. split; [reflexivity|]. split; [apply truthy_nonempty, Htitle|].
      unfold item_url in Hurl. destruct (find item "a" "href") as [link|].
      * unfold bind, subscript in Hurl. destruct (get link "href") as [href|].
        -- simpl in Hurl. exists href. split; [reflexivity|].
           unfold may_raise in Hurl.
           destruct (urljoin env base_url href) as [u|e]; [|discriminate].
           injection Hurl as <-. reflexivity.
        -- discriminate.
      * injection Hurl as <-. split; [reflexivity|].
        unfold item_id. cbn [Py.truthy String.eqb negb]. rewrite Htitle. reflexivity.
    + apply not_truthy_empty, Htitle.
Qed.

End ListingExtractor.

Section CategoryDiscoverer.

Context `{Bs4} (env : Env).

Lemma link_accepted_iff (href text : string) :
  link_accepted href text = true <-> link_qualifies href text.
Proof.
  unfold link_accepted, link_qualifies.
  rewrite !andb_true_iff, negb_true_iff, Nat.ltb_lt, Nat.ltb_lt.
  split.
  - intros ((((Hh & _) & H2) & H50) & Hskip).
    split; [apply truthy_nonempty, Hh|]. split; [lia|].
    intros skip Hin. apply list_elem_of_In in Hin.
    destruct (Py.str_in skip (Py.lower href)) eqn:E; [|reflexivity].
    rewrite <- Hskip. symmetry. apply existsb_exists. eauto.
  - intros (Hh & Hlen & Hskip). repeat split; try lia.
    + unfold Py.truthy. apply negb_true_iff, String.eqb_neq, Hh.
    + unfold Py.truthy. apply negb_true_iff, String.eqb_neq.
      intros ->. simpl in Hlen. lia.
    + destruct (existsb _ skip_list) eqn:E; [|reflexivity].
      apply existsb_exists in E as (skip & Hin & Hs).
      apply list_elem_of_In in Hin. rewrite (Hskip skip Hin) in Hs. discriminate.
Qed.

(** What [all_links] holds. *)
Lemma links_of_selector_spec (soup : Tag) (selector : string) (ld : link_data) :
  ld ∈ links_of_selector soup selector <->
  exists link,
    link ∈ select soup selector /\
    ld = {| ld_href := default "" (get link "href"); ld_text := get_text link;
            ld_selector := selector |} /\
    link_qualifies (ld_href ld) (ld_text ld).
Proof.
  unfold links_of_selector. rewrite list_elem_of_In, in_flat_map. split.
  - intros (link & Hin & Hld). exists link. split; [apply list_elem_of_In, Hin|].
    destruct (link_accepted _ _) eqn:Hacc; [|inversion Hld].
    destruct Hld as [<- | []]. split; [reflexivity|]. simpl. apply link_accepted_iff, Hacc.
  - intros (link & Hin & -> & Hq). exists link. split; [apply list_elem_of_In, Hin|].
    simpl in Hq. apply link_accepted_iff in Hq. rewrite Hq. left. reflexivity.
Qed.

Lemma all_links_spec (soup : Tag) (ld : link_data) :
  ld ∈ all_links soup <->
  ld_selector ld ∈ category_selectors /\
  exists link,
    link ∈ select soup (ld_selector ld) /\
    ld_href ld = default "" (get link "href") /\
    ld_text ld = get_text link /\
    link_qualifies (ld_href ld) (ld_text ld).
Proof.
  unfold all_links. rewrite list_elem_of_In, in_flat_map. split.
  - intros (selector & Hsel & Hin).
    apply list_elem_of_In, links_of_selector_spec in Hin as (link & Hlink & -> & Hq).
    simpl in *. split; [apply list_elem_of_In, Hsel|]. exists link. auto.
  - intros (Hsel & link & Hlink & Hhref & Htext & Hq).
    exists (ld_selector ld). split; [apply list_elem_of_In, Hsel|].
    apply list_elem_of_In, links_of_selector_spec. exists link.
    split; [exact Hlink|]. split; [|exact Hq].
    destruct ld; simpl in *; congruence.
Qed.

(** *** Deduplication *)

Lemma elem_of_seen_after (categories : list category) :
  forall (seen : gset string) (url : string),
    url ∈ seen_after seen categories <-> url ∈ seen \/ url ∈ map c_url categories.
Proof.
  induction categories as [|cat categories IH]; intros seen url; simpl.
  - rewrite elem_of_nil. tauto.
  - unfold seen_after in *. simpl.
    rewrite IH, elem_of_cons, elem_of_union, elem_of_singleton. tauto.
Qed.

Lemma unique_from_seen (categories : list category) :
  forall seen seen' : gset string,
    (forall url, url ∈ seen <-> url ∈ seen') ->
    unique_from seen categories = unique_from seen' categories.
Proof.
  induction categories as [|cat categories IH]; intros seen seen' Heq; simpl; [reflexivity|].
  destruct (decide (c_url cat ∈ seen)) as [Hin | Hout];
    destruct (decide (c_url cat ∈ seen')) as [Hin' | Hout'].
  - apply IH, Heq.
  - exfalso. apply Hout', Heq, Hin.
  - exfalso. apply Hout, Heq, Hin'.
  - f_equal. apply IH. intros url. rewrite !elem_of_union. specialize (Heq url). tauto.
Qed.

Lemma unique_from_app (l1 : list category) :
  forall (seen : gset string) (l2 : list category),
    unique_from seen (l1 ++ l2)
    = (unique_from seen l1 ++ unique_from (seen_after seen l1) l2).
Proof.
  induction l1 as [|cat l1 IH]; intros seen l2; simpl; [reflexivity|].
  destruct (decide (c_url cat ∈ seen)) as [Hin | Hout].
  - rewrite IH. f_equal. apply unique_from_seen. intros url.
    change (seen_after seen (cat :: l1)) with (seen_after ({[c_url cat]} ∪ seen) l1).
    rewrite !elem_of_seen_after, elem_of_union, elem_of_singleton.
    split; [tauto | intros [[-> | Hs] | Hl]; auto].
  - simpl. f_equal. rewrite IH. reflexivity.
Qed.

Lemma unique_from_spec (categories : list category) :
  forall seen : gset string,
    NoDup (map c_url (unique_from seen categories)) /\
    sublist (unique_from seen categories) categories /\
    (forall cat, cat ∈ unique_from seen categories -> c_url cat ∉ seen) /\
    (forall cat, cat ∈ categories ->
       c_url cat ∈ seen \/ c_url cat ∈ map c_url (unique_from seen categories)).
Proof.
  induction categories as [|cat categories IH]; intros seen; simpl.
  - repeat split; [constructor | constructor | intros ? Hin; inversion Hin
                   | intros ? Hin; inversion Hin].
  - destruct (decide (c_url cat ∈ seen)) as [Hin | Hout].
    + destruct (IH seen) as (Hnd & Hsub & Hfresh & Hall).
      repeat split; [exact Hnd | apply sublist_cons, Hsub | exact Hfresh |].
      intros c Hc. apply elem_of_cons in Hc as [-> | Hc]; [left; exact Hin | apply Hall, Hc].
    + destruct (IH ({[c_url cat]} ∪ seen)) as (Hnd & Hsub & Hfresh & Hall).
      repeat split.
      * simpl. constructor; [|exact Hnd].
        intros Hdup. apply list_elem_of_fmap in Hdup as (c & Hurl & Hc).
        apply (Hfresh c Hc). rewrite <- Hurl. apply elem_of_union_l, elem_of_singleton.
        reflexivity.
      * apply sublist_skip, Hsub.
      * intros c Hc. apply elem_of_cons in Hc as [-> | Hc]; [exact Hout|].
        intros Hseen. apply (Hfresh c Hc). apply elem_of_union_r, Hseen.
      * intros c Hc. simpl. rewrite elem_of_cons.
        apply elem_of_cons in Hc as [-> | Hc]; [auto|].
        destruct (Hall c Hc) as [Hs | Hu]; [|auto].
        apply elem_of_union in Hs as [Hs | Hs]; [|auto].
        apply elem_of_singleton in Hs. auto.
Qed.

Lemma unique_from_first (categories : list category) :
  forall (seen : gset string) (cat : category),
    cat ∈ unique_from seen categories ->
    exists before after,
      categories = (before ++ cat :: after) /\ c_url cat ∉ map c_url before.
Proof.
  induction categories as [|c categories IH]; intros seen cat Hin; simpl in Hin.
  - inversion Hin.
  - destruct (decide (c_url c ∈ seen)) as [Hseen | Hnew].
    + destruct (unique_from_spec categories seen) as (_ & _ & Hfresh & _).
      destruct (IH seen cat Hin) as (before & after & -> & Hb).
      exists (c :: before), after. split; [reflexivity|].
      simpl. rewrite not_elem_of_cons. split; [|exact Hb].
      intros E. apply (Hfresh cat Hin). rewrite E. exact Hseen.
    + apply elem_of_cons in Hin as [-> | Hin].
      * exists [], categories. split; [reflexivity | apply not_elem_of_nil].
      * destruct (unique_from_spec categories ({[c_url c]} ∪ seen)) as (_ & _ & Hfresh & _).
        destruct (IH _ cat Hin) as (before & after & -> & Hb).
        exists (c :: before), after. split; [reflexivity|].
        simpl. rewrite not_elem_of_cons. split; [|exact Hb].
        intros E. apply (Hfresh cat Hin). rewrite E.
        apply elem_of_union_l, elem_of_singleton. reflexivity.
Qed.

(** *** The category loop *)

(** When the loop over [all_links] ends, [categories] holds the category
    of each link in turn, and [urljoin] raised on none of them. *)
Lemma categories_of_inl (links : list link_data) :
  forall categories : list category,
    categories_of env links = inl categories ->
    categories = omap (kept_category env) links /\
    forall ld, ld ∈ links -> exists url, urljoin env base_url (ld_href ld) = inl url.
Proof.
  induction links as [|ld links IH]; intros categories E; simpl in E.
  - injection E as <-. split; [reflexivity|]. intros ld Hin. inversion Hin.
  - change (omap (kept_category env) (ld :: links))
      with (match kept_category env ld with
            | Some cat => cat :: omap (kept_category env) links
            | None => omap (kept_category env) links
            end).
    unfold kept_category at 1.
    assert (Hurl : forall found, category_of_link env ld = inl found ->
                                 exists url, urljoin env base_url (ld_href ld) = inl url).
    { unfold category_of_link. intros found.
      destruct (urljoin env base_url (ld_href ld)); [eauto | discriminate]. }
    destruct (category_of_link env ld) as [found|e]; [|discriminate].
    destruct (categories_of env links) as [rest|e]; [|discriminate].
    destruct (IH rest eq_refl) as [-> Hall]. injection E as <-.
    split; [reflexivity|].
    intros l Hin. apply elem_of_cons in Hin as [-> | Hin]; [eapply Hurl; reflexivity | auto].
Qed.

(** The loop raises what [urljoin] raised on the first link it refused. *)
Lemma categories_of_inr (links : list link_data) (e : exn) :
  categories_of env links = inr e ->
  exists ld, ld ∈ links /\ urljoin env base_url (ld_href ld) = inr e.
Proof.
  induction links as [|ld links IH]; intros E; simpl in E; [discriminate|].
  unfold category_of_link in E at 1.
  destruct (urljoin env base_url (ld_href ld)) as [url|e'] eqn:Hurl.
  - destruct (categories_of env links) as [rest|e'']; [discriminate|].
    injection E as ->. destruct (IH eq_refl) as (l & Hin & Hl).
    exists l. split; [apply elem_of_cons; auto | exact Hl].
  - injection E as ->. exists ld. split; [apply elem_of_cons; auto | exact Hurl].
Qed.

(** The loop ends when [urljoin] resolves every collected [href]. *)
Lemma categories_of_resolved (links : list link_data) :
  (forall ld, ld ∈ links -> exists url, urljoin env base_url (ld_href ld) = inl url) ->
  categories_of env links = inl (omap (kept_category env) links).
Proof.
  intros Hall. destruct (categories_of env links) as [categories|e] eqn:E.
  - f_equal. apply (categories_of_inl links categories E).
  - destruct (categories_of_inr links e E) as (ld & Hin & Hurl).
    destruct (Hall ld Hin) as [url Hok]. congruence.
Qed.

Lemma kept_flat_map (soup : Tag) (selectors : list string) :
  omap (kept_category env) (flat_map (links_of_selector soup) selectors)
  = flat_map (categories_of_selector env soup) selectors.
Proof.
  unfold categories_of_selector.
  induction selectors as [|selector selectors IH]; simpl; [reflexivity|].
  rewrite omap_app, IH. reflexivity.
Qed.

Lemma kept_category_spec (links : list link_data) (cat : category) :
  cat ∈ omap (kept_category env) links <->
  exists ld, ld ∈ links /\
             urljoin env base_url (ld_href ld) = inl (c_url cat) /\
             validate_url env (c_url cat) = true /\
             c_name cat = ld_text ld /\
             c_found_by cat = Some (ld_selector ld).
Proof.
  rewrite list_elem_of_omap. unfold kept_category, category_of_link.
  split; intros (ld & Hin & Hcat); exists ld; (split; [exact Hin|]).
  - destruct (urljoin env base_url (ld_href ld)) as [url|e]; [|discriminate].
    destruct (validate_url env url) eqn:Hv; [|discriminate].
    injection Hcat as <-. auto.
  - destruct Hcat as (-> & -> & Hname & Hby). destruct cat; simpl in *. congruence.
Qed.

Lemma categories_of_selector_found_by (soup : Tag) (selector : string) (cat : category) :
  cat ∈ categories_of_selector env soup selector -> c_found_by cat = Some selector.
Proof.
  intros Hin. apply kept_category_spec in Hin as (ld & Hld & _ & _ & _ & ->).
  apply links_of_selector_spec in Hld as (link & _ & -> & _). reflexivity.
Qed.

Lemma found_by_first (soup : Tag) (selectors : list string) :
  forall (seen : gset string) (cat : category),
    cat ∈ unique_from seen (flat_map (categories_of_selector env soup) selectors) ->
    exists i selector,
      list_find (resolves_to env soup (c_url cat)) selectors = Some (i, selector) /\
      c_found_by cat = Some selector.
Proof.
  induction selectors as [|selector selectors IH]; intros seen cat Hin; simpl in Hin.
  - inversion Hin.
  - rewrite unique_from_app in Hin. apply elem_of_app in Hin as [Hhere | Hlater].
    + destruct (unique_from_spec (categories_of_selector env soup selector) seen)
        as (_ & Hsub & _ & _).
      assert (Hcat : cat ∈ categories_of_selector env soup selector).
      { eapply elem_of_sublist; eassumption. }
      exists 0, selector. split; [|apply (categories_of_selector_found_by soup), Hcat].
      simpl. rewrite decide_True; [reflexivity|].
      unfold resolves_to. apply list_elem_of_fmap. exists cat. auto.
    + destruct (IH _ cat Hlater) as (i & sel & Hfind & Hby).
      exists (S i), sel. split; [|exact Hby].
      simpl. rewrite decide_False.
      * rewrite Hfind. reflexivity.
      * intros Hres.
        destruct (unique_from_spec (flat_map (categories_of_selector env soup) selectors)
                    (seen_after seen (categories_of_selector env soup selector)))
          as (_ & _ & Hfresh & _).
        apply (Hfresh cat Hlater). apply elem_of_seen_after. right. exact Hres.
Qed.

(** [discovered] is the deduplication of the categories of the loop. *)
Lemma discovered_inl (soup : Tag) (unique : list category) :
  discovered env soup = inl unique <->
  exists categories,
    categories_of env (all_links soup) = inl categories /\
    unique = unique_from ∅ categories.
Proof.
  unfold discovered. destruct (categories_of env (all_links soup)) as [categories|e].
  - split.
    + intros [= <-]. eauto.
    + intros (c & [= <-] & ->). reflexivity.
  - split; [discriminate | intros (c & Hc & _); discriminate].
Qed.

(** C7, as the code has it.  [parse_main_page] collects, for each selector
    of the cascade in turn, exactly the matched links whose [href] is
    present and non-empty, whose stripped text has 3 to 49 characters and
    whose lower-cased [href] contains none of the excluded substrings.
    When the loop over the collected links ends, the links whose [href]
    [urljoin] resolved to a URL that [validate_url] accepts have become
    categories, kept once per URL in first-seen order: each retained
    category is the first category with its URL, and its [found_by] is
    the first selector of the cascade that produced a category with that
    URL. *)
Theorem discovery_collects_and_deduplicates (soup : Tag) :
  (forall ld : link_data,
     ld ∈ all_links soup <->
     ld_selector ld ∈ category_selectors /\
     exists link,
       link ∈ select soup (ld_selector ld) /\
       ld_href ld = default "" (get link "href") /\
       ld_text ld = get_text link /\
       ld_href ld <> "" /\
       3 <= String.length (ld_text ld) <= 49 /\
       forall skip, skip ∈ skip_list -> Py.str_in skip (Py.lower (ld_href ld)) = false) /\
  (forall categories : list category,
     categories_of env (all_links soup) = inl categories ->
     (forall cat,
        cat ∈ categories <->
        exists ld, ld ∈ all_links soup /\
                   urljoin env base_url (ld_href ld) = inl (c_url cat) /\
                   validate_url env (c_url cat) = true /\
                   c_name cat = ld_text ld /\
                   c_found_by cat = Some (ld_selector ld)) /\
     exists unique,
       discovered env soup = inl unique /\
       NoDup (map c_url unique) /\
       sublist unique categories /\
       (forall cat, cat ∈ categories -> c_url cat ∈ map c_url unique) /\
       (forall cat, cat ∈ unique ->
          exists before after,
            categories = (before ++ cat :: after) /\ c_url cat ∉ map c_url before)) /\
  (forall (unique : list category) (cat : category),
     discovered env soup = inl unique ->
     cat ∈ unique ->
     exists i selector,
       list_find (resolves_to env soup (c_url cat)) category_selectors = Some (i, selector) /\
       c_found_by cat = Some selector).
Proof.
  split; [|split].
  - intros ld. apply all_links_spec.
  - intros categories Hloop.
    destruct (categories_of_inl _ _ Hloop) as [Hkept _].
    split; [intros cat; rewrite Hkept; apply kept_category_spec|].
    exists (unique_from ∅ categories).
    split; [apply discovered_inl; eauto|].
    destruct (unique_from_spec categories ∅) as (Hnd & Hsub & _ & Hall).
    split; [exact Hnd|]. split; [exact Hsub|]. split.
    + intros cat Hcat. destruct (Hall cat Hcat) as [Hempty | Hin]; [|exact Hin].
      contradiction (not_elem_of_empty (C:=gset string) _ Hempty).
    + intros cat. apply unique_from_first.
  - intros unique cat Hdisc Hin.
    apply discovered_inl in Hdisc as (categories & Hloop & ->).
    destruct (categories_of_inl _ _ Hloop) as [-> _].
    unfold all_links in Hin. rewrite kept_flat_map in Hin. eapply found_by_first, Hin.
Qed.

Lemma length_fallback_categories : length fallback_categories = 8.
Proof. reflexivity. Qed.

(** [parse_main_page] once the home page is fetched. *)
Lemma parse_main_page_fetched (st st1 : state) (response : Response) :
  _fetch_page env base_url
    {| self := self st; world := EvSend MsgMainPage :: world st |}
  = (Return (Some response), st1) ->
  parse_main_page env st
  = match discovered env (BeautifulSoup (text response)) with
    | inl unique_categories =>
        (Return (chosen_categories unique_categories),
         {| self := self st1;
            world := EvSend (MsgFoundCategories (length (chosen_categories unique_categories)))
                     :: world st1 |})
    | inr e => (Raise e, st1)
    end.
Proof.
  intros Hfetch.
  assert (Hok : response_ok response = true).
  { destruct (fetch_page_outcome env base_url
                {| self := self st; world := EvSend MsgMainPage :: world st |})
      as (r & st2 & E & _ & Hr).
    rewrite Hfetch in E. injection E as <- <-. apply Hr. reflexivity. }
  unfold parse_main_page. unfold bind at 1, send_message at 1, call at 1.
  unfold bind at 1. rewrite Hfetch. rewrite Hok. simpl negb. cbv iota.
  unfold bind at 1, may_raise.
  destruct (discovered env (BeautifulSoup (text response))); reflexivity.
Qed.


End CategoryDiscoverer.

Section Session.

Context `{Bs4} (env : Env).

Lemma emits_ret (P : event -> Prop) {A} (a : A) : emits P (ret a).
Proof. intros st. exists []. split; [reflexivity | constructor]. Qed.

Lemma emits_raise (P : event -> Prop) {A} (e : exn) : emits P (@raise _ A e).
Proof. intros st. exists []. split; [reflexivity | constructor]. Qed.

Lemma emits_bind (P : event -> Prop) {A B} (c : M A) (k : A -> M B) :
  emits P c -> (forall a, emits P (k a)) -> emits P (bind c k).
Proof.
  intros Hc Hk st. unfold bind.
  destruct (Hc st) as (new1 & E1 & H1). destruct (c st) as [[a|e] st1]; simpl in *.
  - destruct (Hk a st1) as (new2 & E2 & H2). exists (new2 ++ new1).
    rewrite E2, E1, app_assoc. split; [reflexivity | apply Forall_app; auto].
  - exists new1. auto.
Qed.

Lemma emits_try_except (P : event -> Prop) {A} (body : M A) (handler : exn -> option (M A)) :
  emits P body -> (forall e h, handler e = Some h -> emits P h) ->
  emits P (try_except body handler).
Proof.
  intros Hb Hh st. unfold try_except.
  destruct (Hb st) as (new1 & E1 & H1). destruct (body st) as [[a|e] st1]; simpl in *.
  - exists new1. auto.
  - destruct (handler e) as [h|] eqn:Eh; [|exists new1; auto].
    destruct (Hh e h Eh st1) as (new2 & E2 & H2). exists (new2 ++ new1).
    rewrite E2, E1, app_assoc. split; [reflexivity | apply Forall_app; auto].
Qed.

Lemma emits_call (P : event -> Prop) {A} (ev : event) (oracle : history -> A + exn) :
  P ev -> emits P (call ev oracle).
Proof. intros Hev st. exists [ev]. split; [reflexivity | repeat constructor; exact Hev]. Qed.

Lemma emits_get_self (P : event -> Prop) : emits P get_self.
Proof. intros st. exists []. split; [reflexivity | constructor]. Qed.

Lemma emits_put_self (P : event -> Prop) (s : DoskiParser) : emits P (put_self s).
Proof. intros st. exists []. split; [reflexivity | constructor]. Qed.

Ltac emits_step :=
  first
    [ apply emits_ret | apply emits_raise | apply emits_get_self | apply emits_put_self
    | apply emits_call; exact I
    | apply emits_bind; [|intros ?]
    | apply emits_try_except; [|intros ? ? [= <-]] ].

Lemma emits_may_raise (P : event -> Prop) {A} (r : A + exn) : emits P (may_raise r).
Proof. destruct r; [apply emits_ret | apply emits_raise]. Qed.

Lemma emits_subscript (tag : Tag) (key : string) : emits inner_event (subscript tag key).
Proof. unfold subscript. destruct (get tag key); emits_step. Qed.

Lemma emits_get_rendered_html (url : string) (timeout : nat) :
  emits inner_event (get_rendered_html env url timeout).
Proof. unfold get_rendered_html, sleep. repeat emits_step. Qed.

Lemma emits_extract_rows (rows : list Tag) :
  forall acc : list listing, emits inner_event (extract_rows env rows acc).
Proof.
  induction rows as [|row rows IH]; intros acc; simpl.
  - emits_step.
  - destruct (select_one row "a.sbj"); [|apply IH].
    apply emits_bind; [apply emits_subscript | intros href].
    apply emits_bind; [apply emits_may_raise | intros url].
    apply emits_bind; [unfold datetime_now; emits_step | intros parsed_at]. apply IH.
Qed.

Lemma emits_save_all (listings : list listing) : emits inner_event (save_all env listings).
Proof. induction listings as [|l listings IH]; simpl; repeat emits_step. exact IH. Qed.

Lemma started_app (w1 w2 : history) : started (w1 ++ w2) = (started w1 ++ started w2).
Proof. apply omap_app. Qed.

Lemma category_errors_app (w1 w2 : history) :
  category_errors (w1 ++ w2) = (category_errors w1 ++ category_errors w2).
Proof. apply omap_app. Qed.

Lemma started_inner (w : history) : Forall inner_event w -> started w = [].
Proof.
  induction 1 as [|ev w Hev _ IH]; [reflexivity|].
  change (ev :: w) with ([ev] ++ w). rewrite started_app, IH.
  destruct ev as [[]| | | | | | | | | | | |]; simpl in Hev; try contradiction; reflexivity.
Qed.

Lemma category_errors_inner (w : history) : Forall inner_event w -> category_errors w = [].
Proof.
  induction 1 as [|ev w Hev _ IH]; [reflexivity|].
  change (ev :: w) with ([ev] ++ w). rewrite category_errors_app, IH.
  destruct ev as [[]| | | | | | | | | | | |]; simpl in Hev; try contradiction; reflexivity.
Qed.

Lemma parse_category_world (category_url : string) (st : state) :
  exists new,
    world (snd (parse_category env category_url st))
    = new ++ EvSend (MsgStartParse category_url) :: world st /\
    Forall inner_event new.
Proof.
  unfold parse_category. unfold bind at 1, send_message at 1, call at 1.
  match goal with
  | |- context [snd (?rest ?st1)] =>
      assert (Hrest : emits inner_event rest); [|exact (Hrest st1)]
  end.
  apply emits_bind.
  - apply emits_try_except.
    + apply emits_bind; [apply emits_get_rendered_html | intros; emits_step].
    + intros e h [= <-]. unfold send_message. repeat emits_step.
  - intros [page|]; [|emits_step].
    apply emits_bind.
    { apply emits_try_except; [emits_step | intros e h [= <-]; emits_step]. }
    intros _. apply emits_bind; [emits_step | intros _].
    apply emits_bind; [apply emits_extract_rows | intros listings].
    apply emits_bind; [apply emits_save_all | intros _].
    unfold storage_total_count, send_message. repeat emits_step.
Qed.

(** [parse_category] announces its category once, first of all, and sends
    no failure notice of the session loop. *)
Lemma parse_category_events (category_url : string) (st : state) :
  started (world (snd (parse_category env category_url st)))
  = category_url :: started (world st) /\
  category_errors (world (snd (parse_category env category_url st)))
  = category_errors (world st).
Proof.
  destruct (parse_category_world category_url st) as (new & -> & Hnew).
  rewrite started_app, category_errors_app, (started_inner _ Hnew),
    (category_errors_inner _ Hnew).
  split; reflexivity.
Qed.

(** One turn of the session loop, by the outcome of [parse_category]. *)
Lemma parse_categories_fault (n d i : nat) (cat : category) (todo : list category)
      (total parsed : nat) (st st1 : state) (e : exn) :
  parse_category env (c_url cat) st = (Raise e, st1) ->
  parse_categories env n d i (cat :: todo) total parsed st
  = parse_categories env n d (S i) todo total parsed
      {| self := self st1;
         world := EvSend (MsgErrorParsingCategory (c_name cat) (exn_str e)) :: world st1 |}.
Proof.
  intros E. simpl. unfold bind at 1, try_except. unfold bind at 1. rewrite E. reflexivity.
Qed.

Lemma parse_categories_done (n d i : nat) (cat : category) (todo : list category)
      (total parsed : nat) (st st1 : state) (listings : list listing) :
  parse_category env (c_url cat) st = (Return listings, st1) ->
  parse_categories env n d i (cat :: todo) total parsed st
  = parse_categories env n d (S i) todo (total + length listings) (parsed + 1)
      (if (i <? n - 1)%nat
       then {| self := self st1; world := EvSleep d :: world st1 |}
       else st1).
Proof.
  intros E. simpl. unfold bind at 1, try_except. unfold bind at 1. rewrite E.
  destruct (i <? n - 1)%nat; reflexivity.
Qed.

Lemma parse_categories_spec (n d : nat) (todo : list category) :
  forall (i total parsed : nat) (st : state),
    exists total' parsed' st',
      parse_categories env n d i todo total parsed st = (Return (total', parsed'), st') /\
      started (world st') = (rev (map c_url todo) ++ started (world st)) /\
      parsed' + length (category_errors (world st'))
      = parsed + length (category_errors (world st)) + length todo.
Proof.
  induction todo as [|cat todo IH]; intros i total parsed st.
  - exists total, parsed, st. simpl. split; [reflexivity|]. split; [reflexivity | lia].
  - destruct (parse_category_events (c_url cat) st) as [Hstarted Herrors].
    destruct (parse_category env (c_url cat) st) as [[listings|e] st1] eqn:E;
      simpl in Hstarted, Herrors.
    + rewrite (parse_categories_done _ _ _ _ _ _ _ _ _ _ E).
      match goal with |- context [parse_categories env n d (S i) todo ?t ?p ?s] =>
        destruct (IH (S i) t p s) as (total' & parsed' & st' & Hrun & Hs & Hcount) end.
      exists total', parsed', st'. split; [exact Hrun|].
      assert (Hw : forall f : history -> list string,
                 f = started ->
                 f (world (if (i <? n - 1)%nat
                           then {| self := self st1; world := EvSleep d :: world st1 |}
                           else st1)) = f (world st1)).
      { intros f ->. destruct (i <? n - 1)%nat; reflexivity. }
      assert (Hw' : category_errors
                      (world (if (i <? n - 1)%nat
                              then {| self := self st1; world := EvSleep d :: world st1 |}
                              else st1)) = category_errors (world st1)).
      { destruct (i <? n - 1)%nat; reflexivity. }
      rewrite (Hw started eq_refl), Hstarted in Hs. rewrite Hw', Herrors in Hcount.
      split.
      * rewrite Hs. simpl. rewrite <- app_assoc. reflexivity.
      * simpl. lia.
    + rewrite (parse_categories_fault _ _ _ _ _ _ _ _ _ _ E).
      match goal with |- context [parse_categories env n d (S i) todo ?t ?p ?s] =>
        destruct (IH (S i) t p s) as (total' & parsed' & st' & Hrun & Hs & Hcount) end.
      exists total', parsed', st'. split; [exact Hrun|].
      simpl in Hs, Hcount. change (started (world st1)) with (started (world st1)) in Hs.
      split.
      * fold (started (world st1)) in Hs. rewrite Hs, Hstarted. simpl.
        rewrite <- app_assoc. reflexivity.
      * fold (category_errors (world st1)) in Hcount. rewrite Herrors in Hcount.
        simpl in Hcount. simpl. lia.
Qed.

(** The session when discovery has returned its categories: the loop
    runs over the first [max_categories_per_session] of them and the
    session ends with the summary. *)
Lemma full_parse_after_discovery (st st1 : state) (categories : list category) :
  parse_main_page env
    {| self := self st;
       world := EvSend (MsgSessionStart (now env (world st))) :: EvNow :: world st |}
  = (Return categories, st1) ->
  let todo := take (max_categories_per_session (config (self st1))) categories in
  exists parsed total end_time st',
    full_parse env st
    = (Return (SessionOk parsed total (now env (world st)) end_time), st') /\
    started (world st') = (rev (map c_url todo) ++ started (world st1)) /\
    parsed + length (category_errors (world st'))
    = length (category_errors (world st1)) + length todo.
Proof.
  intros Hmain todo. unfold full_parse.
  unfold bind at 1, datetime_now at 1, call at 1. cbv beta iota.
  unfold bind at 1, send_message at 1, call at 1. cbv beta iota. cbn [self world].
  unfold try_except. unfold bind at 1. rewrite Hmain.
  unfold bind at 1, get_self at 1. cbv beta iota. unfold bind at 1.
  destruct (parse_categories_spec (length categories) (category_delay (config (self st1)))
              todo 0 0 0 st1) as (total' & parsed' & st2 & Hrun & Hstarted & Hcount).
  fold todo. rewrite Hrun. unfold_m. simpl.
  eexists _, _, _, _. split; [reflexivity|]. simpl.
  split; [exact Hstarted | exact Hcount].
Qed.

(** A fault of discovery is not a fault of a category: it ends the
    session, which reports the failure. *)
Lemma full_parse_discovery_fault (st st1 : state) (e : exn) :
  parse_main_page env
    {| self := self st;
       world := EvSend (MsgSessionStart (now env (world st))) :: EvNow :: world st |}
  = (Raise e, st1) ->
  full_parse env st
  = (Return (SessionFailed (exn_str e)),
     {| self := self st1; world := EvSend (MsgSessionFailed (exn_str e)) :: world st1 |}).
Proof.
  intros Hmain. unfold full_parse.
  unfold bind at 1, datetime_now at 1, call at 1. cbv beta iota.
  unfold bind at 1, send_message at 1, call at 1. cbv beta iota. cbn [self world].
  unfold try_except. unfold bind at 1. rewrite Hmain. reflexivity.
Qed.

(** C9.  A fault raised while one category is parsed does not leave the
    loop of [full_parse]: the exception is caught in that turn, a failure
    notice naming the category is sent, and the loop goes on with the
    categories that remain.  So the loop always runs to its end, starting
    every category it was given, each turn either counted as parsed or
    notified as failed; and once discovery has returned its categories,
    [full_parse] completes the session whatever happens in the loop. *)
Theorem category_fault_contained :
  (forall (n d i : nat) (cat : category) (todo : list category)
          (total parsed : nat) (st st1 : state) (e : exn),
     parse_category env (c_url cat) st = (Raise e, st1) ->
     parse_categories env n d i (cat :: todo) total parsed st
     = parse_categories env n d (S i) todo total parsed
         {| self := self st1;
            world := EvSend (MsgErrorParsingCategory (c_name cat) (exn_str e))
                     :: world st1 |}) /\
  (forall (n d i : nat) (todo : list category) (total parsed : nat) (st : state),
     exists total' parsed' st',
       parse_categories env n d i todo total parsed st = (Return (total', parsed'), st') /\
       started (world st') = (rev (map c_url todo) ++ started (world st)) /\
       parsed' + length (category_errors (world st'))
       = parsed + length (category_errors (world st)) + length todo) /\
  (forall (st st1 : state) (categories : list category),
     parse_main_page env
       {| self := self st;
          world := EvSend (MsgSessionStart (now env (world st))) :: EvNow :: world st |}
     = (Return categories, st1) ->
     let todo := take (max_categories_per_session (config (self st1))) categories in
     exists parsed total end_time st',
       full_parse env st
       = (Return (SessionOk parsed total (now env (world st)) end_time), st') /\
       started (world st') = (rev (map c_url todo) ++ started (world st1)) /\
       parsed + length (category_errors (world st'))
       = length (category_errors (world st1)) + length todo).
Proof.
  split; [|split].
  - intros. apply parse_categories_fault. assumption.
  - intros. apply parse_categories_spec.
  - apply full_parse_after_discovery.
Qed.

(** C4.  When [driver.get] raises, [get_rendered_html] propagates the
    exception right away: the browser was started and [driver.quit()] is
    not among the calls made. *)
Theorem rendered_html_fault_skips_quit (url : string) (timeout : nat) (st : state) (e : exn) :
  chrome env (world st) = inl tt ->
  set_page_load_timeout env (EvChrome :: world st) timeout = inl tt ->
  driver_get env (EvSetPageLoadTimeout timeout :: EvChrome :: world st) url = inr e ->
  get_rendered_html env url timeout st
  = (Raise e,
     {| self := self st;
        world := EvDriverGet url :: EvSetPageLoadTimeout timeout :: EvChrome :: world st |}) /\
  EvQuit ∉ [EvDriverGet url; EvSetPageLoadTimeout timeout; EvChrome].
Proof.
  intros Hchrome Htimeout Hget. split.
  - unfold get_rendered_html. unfold_m. simpl. rewrite Hchrome. simpl.
    rewrite Htimeout. simpl. rewrite Hget. reflexivity.
  - rewrite !not_elem_of_cons. repeat split; try discriminate. apply not_elem_of_nil.
Qed.

(** On the path without faults the browser is quit before the page is
    returned. *)
Lemma rendered_html_success_quits (url : string) (timeout : nat) (st : state) (page : html) :
  chrome env (world st) = inl tt ->
  set_page_load_timeout env (EvChrome :: world st) timeout = inl tt ->
  driver_get env (EvSetPageLoadTimeout timeout :: EvChrome :: world st) url = inl tt ->
  page_source env (EvSleep 3 :: EvDriverGet url :: EvSetPageLoadTimeout timeout
                   :: EvChrome :: world st) = inl page ->
  driver_quit env (EvPageSource :: EvSleep 3 :: EvDriverGet url
                   :: EvSetPageLoadTimeout timeout :: EvChrome :: world st) = inl tt ->
  get_rendered_html env url timeout st
  = (Return page,
     {| self := self st;
        world := EvQuit :: EvPageSource :: EvSleep 3 :: EvDriverGet url
                 :: EvSetPageLoadTimeout timeout :: EvChrome :: world st |}).
Proof.
  intros Hchrome Htimeout Hget Hpage Hquit.
  unfold get_rendered_html. unfold_m. simpl. rewrite Hchrome. simpl.
  rewrite Htimeout. simpl. rewrite Hget. simpl. rewrite Hpage. simpl.
  rewrite Hquit. reflexivity.
Qed.

End Session.

(** ** Further properties of the pipeline *)

Section ProxyPolicy.

Context `{Bs4} (env : Env).

Lemma set_proxy_installed (proxy_url : string) (st : state) :
  installable env proxy_url ->
  _set_proxy env proxy_url st
  = (Return true,
     {| self := with_proxies (self st) (proxies_for proxy_url); world := world st |}).
Proof.
  intros Hok. unfold _set_proxy. unfold_m. simpl.
  destruct (Py.startswith proxy_url "socks") eqn:Hs; [|reflexivity].
  destruct Hok as [Hno | Hsocks]; [congruence|]. rewrite Hsocks. reflexivity.
Qed.

Lemma set_proxy_refused (proxy_url : string) (st : state) :
  Py.startswith proxy_url "socks" = true -> has_socks env = false ->
  _set_proxy env proxy_url st = (Return false, st).
Proof.
  intros Hs Hno. unfold _set_proxy. unfold_m. simpl. rewrite Hs, Hno.
  destruct st; reflexivity.
Qed.

Lemma rotate_proxy_next (st : state) :
  2 <= length (proxy_list (self st)) ->
  proxy_list (self st)
    !! ((current_proxy_index (self st) + 1) mod length (proxy_list (self st)))
  = Some (proxy_at (self st)
            ((current_proxy_index (self st) + 1) mod length (proxy_list (self st)))).
Proof.
  intros HK. unfold proxy_at.
  destruct (lookup_lt_is_Some_2 (proxy_list (self st))
              ((current_proxy_index (self st) + 1) mod length (proxy_list (self st))))
    as [p Hp].
  - apply Nat.mod_upper_bound. lia.
  - rewrite Hp. reflexivity.
Qed.

Lemma rotate_proxy_installed (st : state) :
  let next := (current_proxy_index (self st) + 1) mod length (proxy_list (self st)) in
  2 <= length (proxy_list (self st)) ->
  installable env (proxy_at (self st) next) ->
  _rotate_proxy env st
  = (Return true,
     {| self := with_proxies (with_index (self st) next)
                             (proxies_for (proxy_at (self st) next));
        world := world st |}).
Proof.
  intros next HK Hok. subst next. unfold _rotate_proxy. unfold_m.
  destruct (Nat.leb_spec (length (proxy_list (self st))) 1); [lia|]. simpl.
  rewrite (rotate_proxy_next st HK).
  rewrite set_proxy_installed by exact Hok. reflexivity.
Qed.

(** X1.  With a pool of at least two proxies [_rotate_proxy] always moves
    the index on.  It answers [True] when the proxy at the new position
    can be installed, and then both the [http] and the [https] entry of
    [session.proxies] are that proxy; when the new proxy is a SOCKS one
    and the SOCKS package is missing it answers [False] and
    [session.proxies] keeps the previous configuration, which no longer
    belongs to the position the index shows. *)
Theorem rotate_proxy_outcome (st : state) :
  let next := (current_proxy_index (self st) + 1) mod length (proxy_list (self st)) in
  2 <= length (proxy_list (self st)) ->
  (installable env (proxy_at (self st) next) ->
   exists st',
     _rotate_proxy env st = (Return true, st') /\
     current_proxy_index (self st') = next /\
     session_proxies (self st') !! "http" = Some (proxy_at (self st) next) /\
     session_proxies (self st') !! "https" = Some (proxy_at (self st) next)) /\
  (Py.startswith (proxy_at (self st) next) "socks" = true -> has_socks env = false ->
   exists st',
     _rotate_proxy env st = (Return false, st') /\
     current_proxy_index (self st') = next /\
     session_proxies (self st') = session_proxies (self st)).
Proof.
  intros next HK. split.
  - intros Hok. eexists. split; [apply rotate_proxy_installed; assumption|].
    simpl. split; [reflexivity|]. unfold proxies_for. split.
    + apply lookup_insert_eq.
    + rewrite lookup_insert_ne by discriminate. apply lookup_insert_eq.
  - intros Hs Hno. subst next. unfold _rotate_proxy. unfold_m.
    destruct (Nat.leb_spec (length (proxy_list (self st))) 1); [lia|]. simpl.
    rewrite (rotate_proxy_next st HK).
    rewrite set_proxy_refused by assumption.
    eexists. split; [reflexivity|]. split; reflexivity.
Qed.

(** The pool that [_setup_proxy] composes from the separate options. *)
Lemma setup_proxy_run (cfg : Config) (robots : option (string -> bool + exn)) (w : history) :
  proxy_enabled cfg = true ->
  let pool :=
    match cfg_proxy_list cfg with
    | _ :: _ => cfg_proxy_list cfg
    | [] => List.filter Py.truthy [proxy_http cfg; proxy_https cfg; proxy_socks cfg]
    end in
  exists p,
    snd (_setup_proxy env {| self := init_parser cfg robots; world := w |})
    = {| self := with_proxies (with_proxy_list (init_parser cfg robots) pool) p; world := w |} /\
    (p = ∅ \/ exists first, pool !! 0 = Some first /\ p = proxies_for first).
Proof.
  intros Hen pool. unfold _setup_proxy. unfold_m. simpl. rewrite Hen. simpl.
  assert (Hpool :
            match cfg_proxy_list cfg with
            | [] =>
                (if Py.truthy (proxy_http cfg) then [proxy_http cfg] else []) ++
                (if Py.truthy (proxy_https cfg) then [proxy_https cfg] else []) ++
                (if Py.truthy (proxy_socks cfg) then [proxy_socks cfg] else [])
            | _ :: _ => cfg_proxy_list cfg
            end = pool).
  { subst pool. destruct (cfg_proxy_list cfg); [|reflexivity]. simpl.
    destruct (Py.truthy (proxy_http cfg)), (Py.truthy (proxy_https cfg)),
      (Py.truthy (proxy_socks cfg)); reflexivity. }
  rewrite Hpool. destruct pool as [|first rest] eqn:E.
  - exists ∅. split; [reflexivity | left; reflexivity].
  - match goal with |- context [_set_proxy env first ?s] =>
      destruct (set_proxy_frame env first s) as (ok & p & Hp) end.
    rewrite Hp. simpl. unfold _set_proxy in Hp. unfold_m. simpl in Hp.
    exists p. split; [reflexivity|].
    destruct (Py.startswith first "socks"); [destruct (has_socks env)|];
      injection Hp as _ <-; simpl; eauto.
Qed.

(** X2.  [_setup_proxy] on a fresh parser: with proxying disabled nothing
    changes, so the pool is empty and requests go direct.  With proxying
    enabled an explicit [proxy_list] is the pool and the separate options
    are ignored; without one the pool is made of the non-empty HTTP, HTTPS
    and SOCKS options, in that order.  The index is 0, and
    [session.proxies] is either empty or the configuration of the first
    proxy of the pool. *)
Theorem setup_proxy_pool (cfg : Config) (robots : option (string -> bool + exn)) (w : history) :
  let st' := snd (_setup_proxy env {| self := init_parser cfg robots; world := w |}) in
  (proxy_enabled cfg = false -> st' = {| self := init_parser cfg robots; world := w |}) /\
  (proxy_enabled cfg = true -> cfg_proxy_list cfg <> [] ->
   proxy_list (self st') = cfg_proxy_list cfg) /\
  (proxy_enabled cfg = true -> cfg_proxy_list cfg = [] ->
   proxy_list (self st')
   = List.filter Py.truthy [proxy_http cfg; proxy_https cfg; proxy_socks cfg]) /\
  current_proxy_index (self st') = 0 /\
  (session_proxies (self st') = ∅ \/
   exists first, proxy_list (self st') !! 0 = Some first /\
                 session_proxies (self st') = proxies_for first).
Proof.
  intros st'. destruct (proxy_enabled cfg) eqn:Hen.
  - destruct (setup_proxy_run cfg robots w Hen) as (p & Hrun & Hp).
    fold st' in Hrun. rewrite Hrun. simpl.
    split; [discriminate|]. split; [|split; [|split; [reflexivity | exact Hp]]].
    + intros _ Hlist. destruct (cfg_proxy_list cfg); [contradiction | reflexivity].
    + intros _ ->. reflexivity.
  - assert (Hst : st' = {| self := init_parser cfg robots; world := w |}).
    { subst st'. unfold _setup_proxy. unfold_m. simpl. rewrite Hen. reflexivity. }
    rewrite Hst. simpl.
    split; [reflexivity|]. split; [discriminate|]. split; [discriminate|].
    split; [reflexivity | left; reflexivity].
Qed.

End ProxyPolicy.

Section FetchPolicy.

Context `{Bs4} (env : Env).

Lemma requests_cons_get (url : string) (proxies : gmap string string) (timeout : nat)
      (w : history) :
  requests (EvGet url proxies timeout :: w) = (url, proxies) :: requests w.
Proof. reflexivity. Qed.

(** The loop issues at most one request per turn, all for the URL asked. *)
Lemma fetch_attempts_requests (url : string) (turns : nat) :
  forall st : state,
    exists new,
      requests (world (snd (fetch_attempts env url turns st)))
      = new ++ requests (world st) /\
      length new <= turns /\ Forall (fun r => fst r = url) new.
Proof.
  induction turns as [|turns IH]; intros st; simpl.
  - exists []. split; [reflexivity|]. split; [simpl; lia | constructor].
  - unfold bind at 1.
    destruct (fetch_attempt_spec env url st) as (r1 & st1 & E & Hw & _ & _). rewrite E.
    assert (Hone : requests (world st1)
                   = [(url, session_proxies (self st))] ++ requests (world st)).
    { rewrite Hw. reflexivity. }
    destruct r1 as [[| | response] | e].
    + destruct (IH st1) as (new & Hnew & Hlen & Hall).
      exists (new ++ [(url, session_proxies (self st))]).
      rewrite Hnew, Hone, app_assoc. split; [reflexivity|].
      split; [rewrite length_app; simpl; lia|].
      apply Forall_app. split; [exact Hall | repeat constructor].
    + exists [(url, session_proxies (self st))]. simpl. rewrite Hone.
      split; [reflexivity|]. split; [simpl; lia | repeat constructor].
    + exists [(url, session_proxies (self st))]. simpl. rewrite Hone.
      split; [reflexivity|]. split; [simpl; lia | repeat constructor].
    + exists [(url, session_proxies (self st))]. simpl. rewrite Hone.
      split; [reflexivity|]. split; [simpl; lia | repeat constructor].
Qed.

Lemma fetch_without_proxy_requests (url : string) (st : state) :
  exists new,
    requests (world (snd (fetch_without_proxy env url st))) = new ++ requests (world st) /\
    length new <= 1 /\ Forall (fun r => fst r = url) new.
Proof.
  destruct (bool_decide (session_proxies (self st) <> ∅) && proxy_enabled (config (self st)))
    eqn:Hcond.
  - apply andb_true_iff in Hcond as [Hp He]. apply bool_decide_eq_true_1 in Hp.
    rewrite (fetch_without_proxy_direct env url st Hp He).
    exists [(url, ∅)]. split.
    + destruct (session_get env (world st) url ∅ (timeout_of st)) as [response | e];
        [destruct (response_ok response) | destruct e]; reflexivity.
    + split; [simpl; lia | repeat constructor].
  - rewrite (fetch_without_proxy_skipped env url st Hcond).
    exists []. split; [reflexivity|]. split; [simpl; lia | constructor].
Qed.

(** X3.  One call of [_fetch_page] issues at most
    [max(1, len(proxy_list)) + 1] requests, every one of them for the URL
    it was given. *)
Theorem fetch_page_request_bound (url : string) (st : state) :
  exists new,
    requests (world (snd (_fetch_page env url st))) = new ++ requests (world st) /\
    length new <= max_proxy_retries (self st) + 1 /\
    Forall (fun r => fst r = url) new.
Proof.
  rewrite fetch_page_unfold.
  destruct (_can_fetch (self st) url) as [[|]|e].
  2, 3: exists []; split; [reflexivity|]; split; [simpl; lia | constructor].
  unfold bind at 1.
  destruct (fetch_attempts_requests url (max_proxy_retries (self st)) st)
    as (new1 & Hnew1 & Hlen1 & Hall1).
  destruct (fetch_attempts env url (max_proxy_retries (self st)) st) as [r1 st1].
  simpl in Hnew1.
  destruct r1 as [[response|] | e].
  - exists new1. simpl. split; [exact Hnew1|]. split; [lia | exact Hall1].
  - unfold bind at 1.
    destruct (fetch_without_proxy_requests url st1) as (new2 & Hnew2 & Hlen2 & Hall2).
    destruct (fetch_without_proxy env url st1) as [r2 st2]. simpl in Hnew2.
    exists (new2 ++ new1). split.
    + destruct r2 as [[response|] | e]; simpl; rewrite Hnew2, Hnew1, app_assoc; reflexivity.
    + split; [rewrite length_app; lia | apply Forall_app; auto].
  - exists new1. simpl. split; [exact Hnew1|]. split; [lia | exact Hall1].
Qed.

Lemma not_connection_error (cls : requests_exception) :
  issubclass cls ConnectionError = false ->
  issubclass cls ProxyError || issubclass cls ConnectionError = false.
Proof. destruct cls; simpl; intros E; try reflexivity; discriminate. Qed.

(** X4.  A fault that is not a connection fault ends the loop at once,
    whatever the pool and the rotation option: an answer with an error
    status, or an exception of [requests.exceptions] outside
    [ConnectionError], is followed by no other request through a proxy,
    and the parser is left as it was. *)
Theorem fetch_attempts_no_retry (url : string) (turns : nat) (st : state) :
  match session_get env (world st) url (session_proxies (self st)) (timeout_of st) with
  | inl response => response_ok response = false
  | inr (RequestsExn cls _) => issubclass cls ConnectionError = false
  | inr _ => False
  end ->
  fetch_attempts env url (S turns) st
  = (Return None,
     {| self := self st;
        world := EvGet url (session_proxies (self st)) (timeout_of st) :: world st |}).
Proof.
  intros Hfault. simpl. unfold bind at 1. unfold fetch_attempt, try_except.
  rewrite get_checked.
  destruct (session_get env (world st) url (session_proxies (self st)) (timeout_of st))
    as [response | e].
  - rewrite Hfault. reflexivity.
  - destruct e as [cls msg| | | | | |]; try contradiction.
    rewrite (not_connection_error cls Hfault), issubclass_RequestException. reflexivity.
Qed.




(** X6.  When the loop ends without a response and the direct attempt
    succeeds, [_fetch_page] returns that response and leaves
    [session.proxies] empty: the proxy configuration is not put back, and
    the rest of the parser is unchanged. *)
Theorem fetch_page_direct_success_drops_proxy (url : string) (st st1 : state)
        (response : Response) :
  _can_fetch (self st) url = inl true ->
  fetch_attempts env url (max_proxy_retries (self st)) st = (Return None, st1) ->
  session_proxies (self st1) <> ∅ ->
  proxy_enabled (config (self st1)) = true ->
  session_get env (world st1) url ∅ (timeout_of st1) = inl response ->
  response_ok response = true ->
  exists st',
    _fetch_page env url st = (Return (Some response), st') /\
    session_proxies (self st') = ∅ /\
    self st' = with_proxies (self st1) ∅.
Proof.
  intros Hallowed Hloop Hp He Hget Hok.
  rewrite fetch_page_unfold, Hallowed.
  unfold bind at 1. rewrite Hloop.
  unfold bind at 1. rewrite (fetch_without_proxy_direct env url st1 Hp He), Hget, Hok.
  eexists. split; [reflexivity|]. split; reflexivity.
Qed.

End FetchPolicy.

Section ExtractorDetails.

Context `{Bs4} (env : Env).

(** *** Strings *)

Lemma char_in_empty (c : ascii) : char_in c EmptyString = false.
Proof. reflexivity. Qed.

Lemma char_in_cons (c a : ascii) (s : string) :
  char_in c (String a s) = Ascii.eqb c a || char_in c s.
Proof.
  unfold char_in. simpl. destruct (Ascii.ascii_dec c a) as [-> | Hne].
  - rewrite Ascii.eqb_refl. destruct s; reflexivity.
  - apply Ascii.eqb_neq in Hne. rewrite Hne. reflexivity.
Qed.

Lemma split_nonempty (sep : ascii) (s : string) :
  exists piece pieces, Py.split sep s = piece :: pieces.
Proof.
  induction s as [|c s IH]; simpl; [eauto|].
  destruct (Ascii.eqb c sep); [eauto|].
  destruct IH as (piece & pieces & ->). eauto.
Qed.

(** No piece of [s.split(sep)] contains the separator, and a character
    absent from [s] is absent from every piece. *)
Lemma split_pieces (sep : ascii) (s : string) :
  forall piece, piece ∈ Py.split sep s ->
    char_in sep piece = false /\
    forall c, char_in c s = false -> char_in c piece = false.
Proof.
  induction s as [|a s IH]; intros piece Hin; simpl in Hin.
  - apply list_elem_of_singleton in Hin as ->. auto.
  - destruct (Ascii.eqb a sep) eqn:Ea.
    + apply elem_of_cons in Hin as [-> | Hin].
      * auto.
      * destruct (IH piece Hin) as [Hsep Hkeep]. split; [exact Hsep|].
        intros c Hc. rewrite char_in_cons in Hc. apply orb_false_iff in Hc as [_ Hc]. auto.
    + destruct (split_nonempty sep s) as (first & rest & Hsplit).
      rewrite Hsplit in Hin, IH.
      apply elem_of_cons in Hin as [-> | Hin].
      * destruct (IH first) as [Hsep Hkeep]; [apply elem_of_cons; auto|].
        split.
        -- rewrite char_in_cons, Hsep, Ascii.eqb_sym, Ea. reflexivity.
        -- intros c Hc. rewrite char_in_cons in Hc |- *.
           apply orb_false_iff in Hc as [Hca Hc]. rewrite Hca. simpl. auto.
      * destruct (IH piece) as [Hsep Hkeep]; [apply elem_of_cons; auto|].
        split; [exact Hsep|].
        intros c Hc. rewrite char_in_cons in Hc. apply orb_false_iff in Hc as [_ Hc]. auto.
Qed.

Lemma last_elem_of {A} (l : list A) (d : A) : l <> [] -> List.last l d ∈ l.
Proof.
  induction l as [|x l IH]; intros Hne; [contradiction|].
  destruct l as [|y l]; [apply elem_of_cons; auto|].
  apply elem_of_cons. right. apply IH. discriminate.
Qed.

Lemma hd_elem_of {A} (l : list A) (d : A) : l <> [] -> List.hd d l ∈ l.
Proof. destruct l; [contradiction|]. intros _. apply elem_of_cons; auto. Qed.

Lemma split_not_nil (sep : ascii) (s : string) : Py.split sep s <> [].
Proof. destruct (split_nonempty sep s) as (p & ps & ->). discriminate. Qed.

Lemma id_of_url_clean (url : string) :
  char_in "/" (id_of_url url) = false /\ char_in "." (id_of_url url) = false.
Proof.
  unfold id_of_url.
  set (segment := List.last (Py.split "/" url) "").
  assert (Hseg : char_in "/" segment = false).
  { exact (proj1 (split_pieces "/" url segment (last_elem_of _ _ (split_not_nil _ _)))). }
  destruct (split_pieces "." segment (List.hd "" (Py.split "." segment)))
    as [Hdot Hkeep]; [apply hd_elem_of, split_not_nil|].
  auto.
Qed.

Lemma split_trailing (sep : ascii) (s : string) :
  exists piece pieces,
    Py.split sep (s +:+ String sep EmptyString) = piece :: pieces ++ [EmptyString].
Proof.
  induction s as [|a s IH]; simpl.
  - rewrite Ascii.eqb_refl. exists EmptyString, []. reflexivity.
  - destruct IH as (p & ps & ->). destruct (Ascii.eqb a sep).
    + exists EmptyString, (p :: ps). reflexivity.
    + exists (String a p), ps. reflexivity.
Qed.

Lemma last_split_trailing (sep : ascii) (s : string) :
  List.last (Py.split sep (s +:+ String sep EmptyString)) "" = "".
Proof.
  destruct (split_trailing sep s) as (p & ps & ->).
  change (p :: ps ++ [EmptyString]) with ((p :: ps) ++ [EmptyString]).
  apply last_last.
Qed.

Lemma length_slice_to (n : nat) (s : string) : String.length (Py.slice_to n s) <= n.
Proof.
  unfold Py.slice_to. revert n. induction s as [|c s IH]; intros [|n]; simpl; try lia.
  specialize (IH n). lia.
Qed.

Lemma length_omap_le {A B} (f : A -> option B) (l : list A) :
  length (omap f l) <= length l.
Proof.
  induction l as [|x l IH]; [simpl; lia|].
  change (omap f (x :: l))
    with (match f x with Some y => y :: omap f l | None => omap f l end).
  destruct (f x); simpl; lia.
Qed.

(** *** The table-row strategy *)

Lemma extract_rows_row_listing (rows : list Tag) :
  forall (acc ls : list listing) (st st' : state),
    extract_rows env rows acc st = (Return ls, st') ->
    map forget_parsed_at ls = map forget_parsed_at acc ++ omap (row_listing env) rows.
Proof.
  induction rows as [|row rows IH]; intros acc ls st st' E.
  - simpl in E. injection E as <- <-. simpl. rewrite app_nil_r. reflexivity.
  - simpl omap. unfold row_listing at 1.
    destruct (select_one row "a.sbj") as [title_elem|] eqn:Hsel.
    + destruct (get title_elem "href") as [href|] eqn:Hhref.
      * destruct (urljoin env base_url href) as [url|e] eqn:Hurl.
        -- rewrite (extract_rows_append env _ _ _ _ _ _ _ Hsel Hhref Hurl) in E.
           rewrite (IH _ _ _ _ E), map_app, <- app_assoc. reflexivity.
        -- rewrite (extract_rows_refused env _ _ _ _ _ _ _ Hsel Hhref Hurl) in E.
           discriminate.
      * rewrite (extract_rows_no_href env _ _ _ _ _ Hsel Hhref) in E. discriminate.
    + rewrite (extract_rows_skip env _ _ _ _ Hsel) in E. apply (IH _ _ _ _ E).
Qed.

(** X7.  When [_extract_listings] returns, its listings are, in the order
    of the rows of [table.ml], the records of the rows that have a title
    anchor: rows without one are skipped, nothing else is added, and
    [parsed_at] apart every field is determined by the row. *)
Theorem extract_listings_follow_rows (html_content : html) (st st' : state)
        (ls : list listing) :
  _extract_listings env html_content st = (Return ls, st') ->
  map forget_parsed_at ls
  = omap (row_listing env) (select (BeautifulSoup html_content) "table.ml tr") /\
  length ls <= length (select (BeautifulSoup html_content) "table.ml tr").
Proof.
  intros E. unfold _extract_listings in E.
  pose proof (extract_rows_row_listing _ _ _ _ _ E) as Hls. simpl in Hls.
  split; [exact Hls|].
  rewrite <- (length_map forget_parsed_at), Hls. apply length_omap_le.
Qed.

(** X8.  The [id] of a table-row listing is computed from its [url] and
    contains neither a slash nor a dot; for a URL that ends in a slash it
    is the empty string. *)
Theorem extract_listings_id (html_content : html) (st st' : state) (ls : list listing) :
  _extract_listings env html_content st = (Return ls, st') ->
  Forall (fun l => l_id l = id_of_url (l_url l) /\
                   char_in "/" (l_id l) = false /\ char_in "." (l_id l) = false /\
                   forall prefix, l_url l = prefix +:+ "/" -> l_id l = "") ls.
Proof.
  intros E. unfold _extract_listings in E.
  destruct (extract_rows_from_row env _ _ _ _ _ E) as (new & -> & Hnew). simpl.
  eapply Forall_impl; [exact Hnew|].
  intros l (row & t & href & _ & _ & _ & _ & _ & Hid).
  split; [exact Hid|]. rewrite Hid.
  destruct (id_of_url_clean (l_url l)) as [Hslash Hdot].
  split; [exact Hslash|]. split; [exact Hdot|].
  intros prefix ->. unfold id_of_url. rewrite last_split_trailing. reflexivity.
Qed.

(** *** The generic-item strategy *)

Lemma collect_images_valid (images : list Tag) :
  forall (acc r : list string) (st st' : state),
    collect_images env images acc st = (Return r, st') ->
    Forall (fun url => validate_url env url = true) acc ->
    Forall (fun url => validate_url env url = true) r /\ length r <= length acc + length images.
Proof.
  induction images as [|img images IH]; intros acc r st st' E Hacc; simpl in E.
  - injection E as <- <-. split; [exact Hacc | simpl; lia].
  - unfold bind at 1, subscript in E. destruct (get img "src") as [src|]; [|discriminate].
    cbv beta iota in E. unfold ret at 1 in E. cbv beta iota in E.
    unfold bind at 1, may_raise in E.
    destruct (urljoin env base_url src) as [img_url|e]; [|discriminate].
    unfold ret at 1 in E. cbv beta iota in E.
    destruct (validate_url env img_url) eqn:Hv.
    + destruct (IH _ _ _ _ E) as [Hr Hlen].
      * apply Forall_app. split; [exact Hacc | repeat constructor; exact Hv].
      * split; [exact Hr|]. rewrite length_app in Hlen. simpl in *. lia.
    + destruct (IH _ _ _ _ E Hacc) as [Hr Hlen]. split; [exact Hr | simpl; lia].
Qed.

Lemma item_id_spec (url title : string) :
  match item_id env url title with
  | Some h =>
      if Py.truthy url then h <> "" /\ char_in "/" h = false
      else String.length h <= 10
  | None => Py.truthy url = true \/ title = ""
  end.
Proof.
  unfold item_id. destruct (Py.truthy url) eqn:Hurl.
  - destruct (List.filter Py.truthy (Py.split "/" url)) as [|p ps] eqn:Hparts; [auto|].
    assert (Hin : List.last (p :: ps) "" ∈ List.filter Py.truthy (Py.split "/" url)).
    { rewrite Hparts. apply last_elem_of. discriminate. }
    apply list_elem_of_In, filter_In in Hin as [Hin Htruthy].
    split; [apply truthy_nonempty, Htruthy|].
    apply list_elem_of_In in Hin.
    exact (proj1 (split_pieces "/" url (List.last (p :: ps) "") Hin)).
  - destruct (Py.truthy title) eqn:Ht.
    + apply length_slice_to.
    + right. apply not_truthy_empty, Ht.
Qed.

(** X9.  A listing returned by [_parse_listing_item] has a description of
    at most 200 characters, only images whose resolved URL is valid, at
    most one per [img] with a [src], and an empty date.  Its [id] is
    never missing when it has no URL, and is then at most 10 characters
    long; an [id] taken from the URL is a non-empty path segment without
    a slash. *)
Theorem parse_listing_item_fields (item : Tag) (st st' : state) (l : item_listing) :
  _parse_listing_item env item st = (Return (Some l), st') ->
  String.length (i_description l) <= 200 /\
  Forall (fun url => validate_url env url = true) (i_images l) /\
  length (i_images l) <= length (find_all item "img" "src") /\
  i_date l = "" /\
  i_parsed_at l = now env (world st) /\
  (i_url l = "" -> exists h, i_id l = Some h /\ String.length h <= 10) /\
  (i_url l <> "" -> forall h, i_id l = Some h -> h <> "" /\ char_in "/" h = false).
Proof.
  intros E. unfold _parse_listing_item in E.
  unfold bind at 1, datetime_now at 1, call at 1 in E. cbv beta iota in E.
  unfold bind at 1 in E.
  destruct (item_url env item _) as [[url|e] s1]; [|discriminate].
  unfold bind at 1 in E.
  destruct (collect_images env (find_all item "img" "src") [] s1) as [[images|e] s2] eqn:Himg;
    [|discriminate].
  unfold ret in E.
  destruct (Py.truthy (cascade_text item title_selectors)) eqn:Htitle; [|discriminate].
  injection E as <- _. cbn [i_description i_images i_date i_parsed_at i_url i_id].
  destruct (collect_images_valid _ _ _ _ _ Himg) as [Hvalid Hlen]; [constructor|].
  split.
  { match goal with |- String.length (match ?found with _ => _ end) <= _ =>
      destruct found end; [apply length_slice_to | simpl; lia]. }
  split; [exact Hvalid|]. split; [exact Hlen|]. split; [reflexivity|]. split; [reflexivity|].
  pose proof (item_id_spec url (cascade_text item title_selectors)) as Hid.
  split.
  - intros ->. unfold item_id in *. cbn [Py.truthy String.eqb negb] in *.
    rewrite Htitle in *. eexists. split; [reflexivity | exact Hid].
  - intros Hurl h Hh. rewrite Hh in Hid.
    assert (Ht : Py.truthy url = true).
    { unfold Py.truthy. apply negb_true_iff, String.eqb_neq, Hurl. }
    rewrite Ht in Hid. exact Hid.
Qed.

End ExtractorDetails.

Section DiscoveryDetails.

Context `{Bs4} (env : Env).

(** X10.  Every category that discovery keeps comes from a link of the
    page: its URL is what [urljoin] returned for the link's [href]
    against the base URL and passes [validate_url], its name is the
    link's text, 3 to 49 characters long, the [href] is non-empty and free
    of the excluded substrings, and [found_by] is a selector of the
    cascade. *)
Theorem discovered_categories_wellformed (soup : Tag) (unique : list category)
        (cat : category) :
  discovered env soup = inl unique ->
  cat ∈ unique ->
  validate_url env (c_url cat) = true /\
  3 <= String.length (c_name cat) <= 49 /\
  exists selector link,
    selector ∈ category_selectors /\
    link ∈ select soup selector /\
    c_found_by cat = Some selector /\
    c_name cat = get_text link /\
    urljoin env base_url (default "" (get link "href")) = inl (c_url cat) /\
    default "" (get link "href") <> "" /\
    forall skip, skip ∈ skip_list ->
                 Py.str_in skip (Py.lower (default "" (get link "href"))) = false.
Proof.
  intros Hdisc Hin.
  apply discovered_inl in Hdisc as (categories & Hloop & ->).
  destruct (categories_of_inl env _ _ Hloop) as [-> _].
  destruct (unique_from_spec (omap (kept_category env) (all_links soup)) ∅)
    as (_ & Hsub & _ & _).
  pose proof (elem_of_sublist _ _ _ Hin Hsub) as Hcat.
  apply kept_category_spec in Hcat as (ld & Hld & Hurl & Hvalid & Hname & Hby).
  apply all_links_spec in Hld as (Hsel & link & Hlink & Hhref & Htext & Hne & Hlen & Hskip).
  split; [exact Hvalid|]. rewrite Hname. split; [exact Hlen|].
  exists (ld_selector ld), link. rewrite <- Hhref. auto 10.
Qed.

Lemma unique_from_fixed (categories : list category) :
  forall seen : gset string,
    NoDup (map c_url categories) ->
    (forall cat, cat ∈ categories -> c_url cat ∉ seen) ->
    unique_from seen categories = categories.
Proof.
  induction categories as [|cat categories IH]; intros seen Hnd Hfresh; simpl; [reflexivity|].
  simpl in Hnd. apply NoDup_cons in Hnd as [Hnew Hnd].
  rewrite decide_False by (apply Hfresh, elem_of_cons; auto).
  f_equal. apply IH; [exact Hnd|].
  intros c Hc Hseen. apply elem_of_union in Hseen as [Hseen | Hseen].
  - apply elem_of_singleton in Hseen. apply Hnew. rewrite <- Hseen.
    apply list_elem_of_fmap. exists c. auto.
  - apply (Hfresh c); [apply elem_of_cons; auto | exact Hseen].
Qed.

(** X11.  The deduplication loop is idempotent: run again on its own
    output, with the same set of URLs already seen, it removes nothing;
    and it leaves unchanged any list whose URLs are distinct and unseen. *)
Theorem unique_from_idempotent (seen : gset string) (categories : list category) :
  unique_from seen (unique_from seen categories) = unique_from seen categories /\
  (NoDup (map c_url categories) ->
   (forall cat, cat ∈ categories -> c_url cat ∉ seen) ->
   unique_from seen categories = categories).
Proof.
  split.
  - destruct (unique_from_spec categories seen) as (Hnd & _ & Hfresh & _).
    apply unique_from_fixed; assumption.
  - apply unique_from_fixed.
Qed.

Lemma fallback_urls_distinct : NoDup (map c_url (take 5 fallback_categories)).
Proof. apply (bool_decide_unpack _). vm_compute. exact I. Qed.

Lemma length_chosen_categories (unique_categories : list category) :
  3 <= length (chosen_categories unique_categories) <= 5.
Proof.
  unfold chosen_categories.
  destruct (Nat.ltb_spec (length unique_categories) 3) as [Hfew | Hmany].
  - simpl. lia.
  - rewrite length_take. lia.
Qed.

(** What [parse_main_page] hands back, when it returns. *)
Lemma parse_main_page_result (st st' : state) (categories : list category) :
  parse_main_page env st = (Return categories, st') ->
  length categories <= 5 /\
  (categories = [] \/ 3 <= length categories) /\
  NoDup (map c_url categories) /\
  same_setup (self st) (self st') /\
  (categories = [] <->
   fst (_fetch_page env base_url
          {| self := self st; world := EvSend MsgMainPage :: world st |}) = Return None).
Proof.
  intros Hrun.
  destruct (fetch_page_outcome env base_url
              {| self := self st; world := EvSend MsgMainPage :: world st |})
    as (r & st1 & E & Hsetup & Hok).
  simpl in Hsetup. rewrite E. simpl.
  destruct r as [[response|] | e].
  - rewrite (parse_main_page_fetched env st st1 response E) in Hrun.
    destruct (discovered env (BeautifulSoup (text response))) as [unique|e] eqn:Hdisc;
      [|discriminate].
    injection Hrun as <- <-.
    pose proof (length_chosen_categories unique) as Hlen.
    split; [lia|]. split; [right; lia|]. split; [|split; [exact Hsetup|]].
    + unfold chosen_categories.
      destruct (length unique <? 3)%nat; [exact fallback_urls_distinct|].
      rewrite fmap_take. eapply sublist_NoDup; [|apply sublist_take].
      apply discovered_inl in Hdisc as (cs & _ & ->). apply unique_from_spec.
    + split; [|discriminate]. intros Hnil. rewrite Hnil in Hlen. simpl in Hlen. lia.
  - unfold parse_main_page in Hrun. unfold bind at 1, send_message at 1, call at 1 in Hrun.
    cbv beta iota in Hrun. unfold bind at 1 in Hrun. rewrite E in Hrun.
    injection Hrun as <- <-.
    split; [simpl; lia|]. split; [auto|]. split; [constructor|].
    split; [exact Hsetup | split; reflexivity].
  - unfold parse_main_page in Hrun. unfold bind at 1, send_message at 1, call at 1 in Hrun.
    cbv beta iota in Hrun. unfold bind at 1 in Hrun. rewrite E in Hrun. discriminate.
Qed.

(** X12.  Whenever [parse_main_page] returns, it returns no category at
    all or 3 to 5 categories, never 1 or 2, and the categories it returns
    have pairwise distinct URLs; it returns none exactly when the home
    page could not be fetched. *)
Theorem parse_main_page_capped (st st' : state) (categories : list category) :
  parse_main_page env st = (Return categories, st') ->
  length categories <= 5 /\
  (categories = [] \/ 3 <= length categories) /\
  NoDup (map c_url categories) /\
  (categories = [] <->
   fst (_fetch_page env base_url
          {| self := self st; world := EvSend MsgMainPage :: world st |}) = Return None).
Proof.
  intros Hrun.
  destruct (parse_main_page_result st st' categories Hrun)
    as (Hcap & Hsize & Hnd & _ & Hnone).
  auto.
Qed.

End DiscoveryDetails.

Section SessionDetails.

Context `{Bs4} (env : Env).

Lemma saved_app (w1 w2 : history) : saved (w1 ++ w2) = saved w1 ++ saved w2.
Proof. apply omap_app. Qed.

Lemma saved_none (w : history) : Forall not_a_save w -> saved w = [].
Proof.
  induction 1 as [|ev w Hev _ IH]; [reflexivity|].
  change (ev :: w) with ([ev] ++ w). rewrite saved_app, IH.
  destruct ev; simpl in Hev; try contradiction; reflexivity.
Qed.

(** A computation that saves nothing leaves the saved listings as they
    were. *)
Lemma saved_of_emits {A} (c : M A) (st : state) (r : outcome A) (st' : state) :
  emits not_a_save c -> c st = (r, st') -> saved (world st') = saved (world st).
Proof.
  intros Hc E. destruct (Hc st) as (new & Hw & Hnew). rewrite E in Hw. simpl in Hw.
  rewrite Hw, saved_app, (saved_none _ Hnew). reflexivity.
Qed.

Lemma get_rendered_html_saves_nothing (url : string) (timeout : nat) :
  emits not_a_save (get_rendered_html env url timeout).
Proof.
  unfold get_rendered_html, sleep.
  repeat (apply emits_bind; [apply emits_call; exact I | intros ?]).
  apply emits_ret.
Qed.

Lemma extract_rows_saves_nothing (rows : list Tag) :
  forall acc : list listing, emits not_a_save (extract_rows env rows acc).
Proof.
  induction rows as [|row rows IH]; intros acc; simpl; [apply emits_ret|].
  destruct (select_one row "a.sbj"); [|apply IH].
  apply emits_bind.
  - unfold subscript. destruct (get _ "href"); [apply emits_ret | apply emits_raise].
  - intros href. apply emits_bind; [apply emits_may_raise | intros url].
    apply emits_bind; [apply emits_call; exact I | intros parsed_at; apply IH].
Qed.

Lemma save_all_saved (listings : list listing) :
  forall st st' : state,
    save_all env listings st = (Return tt, st') ->
    saved (world st') = rev listings ++ saved (world st).
Proof.
  induction listings as [|l listings IH]; intros st st' E; simpl in E.
  - injection E as <-. reflexivity.
  - unfold bind at 1, call at 1 in E.
    destruct (save_listing env (world st) l); [|discriminate].
    cbv beta iota in E. rewrite (IH _ _ E). simpl. rewrite <- app_assoc. reflexivity.
Qed.

(** X13.  A fault of the browser does not leave [parse_category]: the
    exception raised by [get_rendered_html] is turned into one
    notification carrying its text, the result is the empty list, and
    nothing is saved. *)
Theorem parse_category_render_fault (category_url : string) (st st1 : state) (e : exn) :
  get_rendered_html env category_url 20
    {| self := self st; world := EvSend (MsgStartParse category_url) :: world st |}
  = (Raise e, st1) ->
  parse_category env category_url st
  = (Return [],
     {| self := self st1; world := EvSend (MsgSeleniumError (exn_str e)) :: world st1 |}) /\
  saved (world st1) = saved (world st).
Proof.
  intros E. split.
  - unfold parse_category. unfold bind at 1, send_message at 1, call at 1.
    cbv beta iota. unfold bind at 1, try_except. unfold bind at 1. rewrite E.
    reflexivity.
  - apply (saved_of_emits _ _ _ _ (get_rendered_html_saves_nothing category_url 20) E).
Qed.

(** X14.  What [parse_category] returns is what it stored: when it
    returns, the listings handed to [storage.save_listing] during the
    call are exactly the returned ones, each once and in their order. *)
Theorem parse_category_saves_what_it_returns (category_url : string) (st st' : state)
        (listings : list listing) :
  parse_category env category_url st = (Return listings, st') ->
  saved (world st') = rev listings ++ saved (world st).
Proof.
  intros E. unfold parse_category in E.
  unfold bind at 1, send_message at 1, call at 1 in E. cbv beta iota in E.
  unfold bind at 1 in E.
  match type of E with
  | context [try_except ?body ?handler ?s] =>
      assert (Hrender : emits not_a_save (try_except body handler));
      [|destruct (try_except body handler s) as [[rendered|e] s1] eqn:Htry; [|discriminate];
        pose proof (saved_of_emits _ _ _ _ Hrender Htry) as Hs1; clear Hrender Htry]
  end.
  { apply emits_try_except.
    - apply emits_bind; [apply get_rendered_html_saves_nothing | intros; apply emits_ret].
    - intros e h [= <-]. unfold send_message.
      apply emits_bind; [apply emits_call; exact I | intros; apply emits_ret]. }
  simpl in Hs1. destruct rendered as [page|].
  2: { injection E as <- <-. exact Hs1. }
  unfold bind at 1 in E.
  match type of E with
  | context [try_except ?body ?handler s1] =>
      assert (Hwrite : emits not_a_save (try_except body handler));
      [|destruct (try_except body handler s1) as [[u|e] s2] eqn:Htry; [|discriminate];
        pose proof (saved_of_emits _ _ _ _ Hwrite Htry) as Hs2; clear Hwrite Htry]
  end.
  { apply emits_try_except; [apply emits_call; exact I|].
    intros e h [= <-]. apply emits_ret. }
  unfold bind at 1, call at 1 in E.
  destruct (extract_text env (world s2) page); [|discriminate]. cbv beta iota in E.
  unfold bind at 1 in E.
  destruct (_extract_listings env page _) as [[ls|e] s3] eqn:Hextract; [|discriminate].
  pose proof (saved_of_emits _ _ _ _ (extract_rows_saves_nothing _ []) Hextract) as Hs3.
  simpl in Hs3.
  unfold bind at 1 in E.
  destruct (save_all env ls s3) as [[[]|e] s4] eqn:Hsave; [|discriminate].
  pose proof (save_all_saved _ _ _ Hsave) as Hs4.
  unfold_m. simpl in E. injection E as <- <-. simpl.
  change (saved (EvSend ?m :: EvTotalCount :: world s4)) with (saved (world s4)).
  rewrite Hs4, Hs3, Hs2, Hs1. reflexivity.
Qed.

(** The session loop only adds to the history. *)
Lemma parse_categories_grows (n d : nat) (todo : list category) :
  forall (i total parsed : nat) (st : state),
    exists new,
      world (snd (parse_categories env n d i todo total parsed st)) = new ++ world st.
Proof.
  induction todo as [|cat todo IH]; intros i total parsed st.
  - exists []. reflexivity.
  - destruct (parse_category_world env (c_url cat) st) as (new1 & Hw1 & _).
    destruct (parse_category env (c_url cat) st) as [[listings|e] st1] eqn:E; simpl in Hw1.
    + rewrite (parse_categories_done env _ _ _ _ _ _ _ _ _ _ E).
      match goal with |- context [parse_categories env n d (S i) todo ?t ?p ?s] =>
        destruct (IH (S i) t p s) as (new2 & Hw2) end.
      rewrite Hw2. destruct (i <? n - 1)%nat; simpl; rewrite Hw1.
      * exists (new2 ++ EvSleep d :: new1 ++ [EvSend (MsgStartParse (c_url cat))]).
        rewrite <- !app_assoc. simpl. rewrite <- app_assoc. reflexivity.
      * exists (new2 ++ new1 ++ [EvSend (MsgStartParse (c_url cat))]).
        rewrite <- !app_assoc. reflexivity.
    + rewrite (parse_categories_fault env _ _ _ _ _ _ _ _ _ _ E).
      match goal with |- context [parse_categories env n d (S i) todo ?t ?p ?s] =>
        destruct (IH (S i) t p s) as (new2 & Hw2) end.
      rewrite Hw2. simpl. rewrite Hw1.
      exists (new2 ++ EvSend (MsgErrorParsingCategory (c_name cat) (exn_str e))
                   :: new1 ++ [EvSend (MsgStartParse (c_url cat))]).
      rewrite <- !app_assoc. simpl. rewrite <- app_assoc. reflexivity.
Qed.

(** X15.  A session never counts more parsed categories than
    [max_categories_per_session], nor more than 5. *)
Theorem full_parse_counts (st st' : state) (parsed total : nat) (start_time end_time : string) :
  full_parse env st = (Return (SessionOk parsed total start_time end_time), st') ->
  parsed <= max_categories_per_session (config (self st)) /\ parsed <= 5.
Proof.
  intros E. unfold full_parse in E.
  unfold bind at 1, datetime_now at 1, call at 1 in E. cbv beta iota in E.
  unfold bind at 1, send_message at 1, call at 1 in E. cbv beta iota in E.
  unfold try_except in E. unfold bind at 1 in E.
  match type of E with context [parse_main_page env ?s] =>
    destruct (parse_main_page env s) as [[categories|e] s1] eqn:Hmain; [|discriminate];
    destruct (parse_main_page_result env _ _ _ Hmain) as (Hcap & _ & _ & Hsetup & _)
  end.
  unfold bind at 1, get_self at 1 in E. cbv beta iota in E.
  unfold bind at 1 in E.
  match type of E with context [parse_categories env ?n ?d 0 ?todo 0 0 s1] =>
    destruct (parse_categories_spec env n d todo 0 0 0 s1)
      as (total' & parsed' & s2 & Hrun & _ & Hcount);
    destruct (parse_categories_grows n d todo 0 0 0 s1) as (new & Hgrow)
  end.
  rewrite Hrun in E, Hgrow. simpl in Hgrow. unfold_m. simpl in E. injection E as <- _ _ _ _.
  destruct Hsetup as (Hconfig & _ & _). simpl in Hconfig. rewrite Hconfig in Hcount.
  rewrite length_take in Hcount.
  assert (Herr : length (category_errors (world s1)) <= length (category_errors (world s2))).
  { rewrite Hgrow, category_errors_app, length_app. lia. }
  split; lia.
Qed.

(** X16.  [get_rendered_html] returns a page only at the end of the whole
    sequence of browser calls: start, page-load timeout, navigation, the
    3-second pause, reading the source, and [quit] last of all; it never
    returns without having called [quit], and it leaves the parser
    untouched. *)
Theorem rendered_html_returns_after_quit (url : string) (timeout : nat) (st st' : state)
        (page : html) :
  get_rendered_html env url timeout st = (Return page, st') ->
  world st'
  = EvQuit :: EvPageSource :: EvSleep 3 :: EvDriverGet url
    :: EvSetPageLoadTimeout timeout :: EvChrome :: world st /\
  self st' = self st /\
  page_source env (EvSleep 3 :: EvDriverGet url :: EvSetPageLoadTimeout timeout
                   :: EvChrome :: world st) = inl page.
Proof.
  intros E. unfold get_rendered_html in E. unfold_m. simpl in E.
  destruct (chrome env (world st)); [|discriminate].
  destruct (set_page_load_timeout env _ timeout); [|discriminate].
  destruct (driver_get env _ url); [|discriminate].
  destruct (page_source env _) as [source|] eqn:Hsource; [|discriminate].
  destruct (driver_quit env _); [|discriminate].
  injection E as <- <-. auto.
Qed.

End SessionDetails.

(** ** The properties on the example pages *)

Section Instances.

#[local] Existing Instance MiniSoup.markup.
#[local] Existing Instance MiniSoup.bs4.

(** The resolver on references of the example pages, as
    [urllib.parse.urljoin] answers for them. *)
Lemma demo_urljoin_references :
  demo_urljoin base_url "/msg/101.html" = inl "https://www.doski.ru/msg/101.html" /\
  demo_urljoin base_url "" = inl "https://www.doski.ru" /\
  demo_urljoin base_url " http://example.com/1.html" = inl " http://example.com/1.html" /\
  demo_urljoin base_url "http://[bad" = inr (ValueError "Invalid IPv6 URL").
Proof. repeat split. Qed.

(** A pool of one proxy is left alone; in a pool of three the index goes
    from 2 to 0, and three rotations from index 1 end at index 1. *)
Lemma rotate_proxy_circular_witness :
  _rotate_proxy quiet_env one_proxy = (Return false, one_proxy) /\
  current_proxy_index
    (self (snd (_rotate_proxy quiet_env (parser_with_pool three_proxies 2 true))))
  = 0 /\
  current_proxy_index
    (self (rotate_times quiet_env 3 (parser_with_pool three_proxies 1 true)))
  = 1.
Proof.
  split; [|split].
  - apply (proj1 (rotate_proxy_circular quiet_env one_proxy)). simpl. lia.
  - apply (proj1 (proj2 (rotate_proxy_circular quiet_env
                           (parser_with_pool three_proxies 2 true)))).
    simpl. lia.
  - apply (proj2 (proj2 (rotate_proxy_circular quiet_env
                           (parser_with_pool three_proxies 1 true))));
      simpl; lia.
Defined.

(** C3 as stated fails: with [timeout = 0] in the configuration the
    transport raises [ValueError], which no [except] clause names, and a
    URL that the robots rules cannot split makes the check itself raise;
    either exception leaves [_fetch_page], and nothing is notified. *)
Lemma fetch_page_value_error_escapes :
  _fetch_page zero_timeout_env (c_url vacancies) zero_timeout_parser
  = (Raise (ValueError zero_timeout_message),
     {| self := self zero_timeout_parser; world := [EvGet (c_url vacancies) ∅ 0] |}) /\
  _fetch_page quiet_env "http://[bad" parser_with_rules
  = (Raise (ValueError "Invalid IPv6 URL"), parser_with_rules) /\
  ~ (forall url st, exists r st', _fetch_page zero_timeout_env url st = (Return r, st')).
Proof.
  split; [reflexivity|]. split; [reflexivity|].
  intros Hclaim.
  destruct (Hclaim (c_url vacancies) zero_timeout_parser) as (r & st' & E). discriminate.
Qed.

(** With one proxy and every connection refused, the proxy attempt is
    followed by exactly one direct attempt, the proxy configuration is put
    back and the failure is notified. *)
Lemma fetch_page_direct_attempt_witness :
  exists r st',
    _fetch_page quiet_env (c_url vacancies) one_proxy = (r, st') /\
    requests (world st') = (c_url vacancies, ∅) :: requests (world after_proxy_attempt) /\
    r = Return None /\ self st' = self after_proxy_attempt /\
    sent (world st') = MsgErrorFetching (c_url vacancies) :: sent (world after_proxy_attempt).
Proof.
  apply (fetch_page_direct_attempt quiet_env (c_url vacancies) one_proxy after_proxy_attempt).
  - reflexivity.
  - reflexivity.
  - apply insert_non_empty.
  - reflexivity.
Defined.




(** The listings of [table_page] come from its rows, and the item with a
    linked heading gives a listing with its title and the URL of the
    link. *)
Lemma listings_title_and_url_witness :
  Forall (from_row quiet_env (select (BeautifulSoup table_page) "table.ml tr"))
         (match fst (_extract_listings quiet_env table_page direct_parser) with
          | Return ls => ls
          | Raise _ => []
          end) /\
  match (match fst (_parse_listing_item quiet_env item_with_link direct_parser) with
         | Return r => r
         | Raise _ => None
         end) with
  | Some l =>
      i_title l = cascade_text item_with_link title_selectors /\
      i_title l <> "" /\
      match find item_with_link "a" "href" with
      | Some link =>
          exists href, get link "href" = Some href /\
                       urljoin quiet_env base_url href = inl (i_url l)
      | None =>
          i_url l = "" /\
          i_id l = Some (Py.slice_to 10 (Py.str_of_int (hash quiet_env (i_title l))))
      end
  | None => cascade_text item_with_link title_selectors = ""
  end.
Proof.
  split.
  - apply (proj1 (listings_title_and_url quiet_env)
             table_page direct_parser
             (snd (_extract_listings quiet_env table_page direct_parser))).
    reflexivity.
  - apply (proj2 (listings_title_and_url quiet_env)
             item_with_link direct_parser
             (snd (_parse_listing_item quiet_env item_with_link direct_parser))).
    reflexivity.
Defined.

(** C1 as stated fails for the table-row strategy, which has no test on
    the title and takes the URL as [urljoin] returns it: a title anchor
    without text gives a listing with an empty title, and an [href] with
    a space before its scheme gives a listing whose [url] is that [href],
    which is not an absolute URL. *)
Lemma table_rows_without_title_or_absolute_url :
  exists l1 l2 st',
    _extract_listings quiet_env page_odd_anchors direct_parser = (Return [l1; l2], st') /\
    l_title l1 = "" /\
    l_url l2 = " http://example.com/1.html" /\
    is_absolute_url (l_url l2) = false.
Proof.
  eexists _, _, _. split; [lazy; reflexivity|]. repeat split.
Qed.

(** The generic-item strategy leaves [url] empty for an item without a
    link. *)
Lemma generic_item_without_link_has_no_url :
  exists l st',
    _parse_listing_item quiet_env item_without_link direct_parser = (Return (Some l), st') /\
    i_title l = "Sofa" /\ i_url l = "".
Proof. eexists _, _. split; [lazy; reflexivity|]. split; reflexivity. Qed.

(** On [home_page] the Moscow link is matched by three selectors; the
    category records the first of them. *)
Lemma discovery_collects_and_deduplicates_witness :
  exists i selector,
    list_find (resolves_to quiet_env (BeautifulSoup home_page) (c_url moscow))
              category_selectors
    = Some (i, selector) /\
    c_found_by moscow = Some selector.
Proof.
  apply (proj2 (proj2 (discovery_collects_and_deduplicates quiet_env
                         (BeautifulSoup home_page)))
           (match discovered quiet_env (BeautifulSoup home_page) with
            | inl unique => unique
            | inr _ => []
            end)
           moscow).
  - vm_compute. reflexivity.
  - vm_compute. apply list_elem_of_lookup. exists 1. reflexivity.
Defined.

(** C7 as stated fails: a link whose text has 5 characters and whose
    [href], being empty, contains no excluded substring is not collected. *)
Lemma empty_href_link_not_collected :
  ~ (forall link,
       link ∈ select (BeautifulSoup home_page_empty_href) "a" ->
       3 <= String.length (get_text link) <= 49 ->
       (forall skip, skip ∈ skip_list ->
                     Py.str_in skip (Py.lower (default "" (get link "href"))) = false) ->
       exists ld, ld ∈ all_links (BeautifulSoup home_page_empty_href) /\
                  ld_text ld = get_text link).
Proof.
  intros Hclaim.
  destruct (Hclaim (MiniSoup.Element "a" [("href", "")] [MiniSoup.NavigableString "Hello"],
                    [{| MiniSoup.fr_name := "[document]"; MiniSoup.fr_attrs := [];
                        MiniSoup.fr_after := [] |}]))
    as (ld & Hin & _).
  - apply list_elem_of_lookup. exists 0. reflexivity.
  - vm_compute. split; lia.
  - intros skip Hskip. vm_compute in Hskip.
    repeat (apply elem_of_cons in Hskip as [-> | Hskip]); try reflexivity. inversion Hskip.
  - vm_compute in Hin. inversion Hin.
Qed.


(** A home page with a link whose [href] cannot be split: discovery
    raises the [ValueError] of [urljoin], and the session ends as failed. *)
Lemma malformed_href_fails_session :
  fst (parse_main_page (home_env home_page_malformed_href) direct_parser)
  = Raise (ValueError "Invalid IPv6 URL") /\
  fst (full_parse (home_env home_page_malformed_href) direct_parser)
  = Return (SessionFailed "Invalid IPv6 URL").
Proof. split; reflexivity. Qed.

(** The [KeyError] raised on the broken page is notified and the loop
    moves on to the categories that remain; a session over [home_page]
    runs to its summary. *)
Lemma category_fault_contained_witness :
  parse_categories broken_page_env 1 1 0 [vacancies] 0 0 direct_parser
  = parse_categories broken_page_env 1 1 1 [] 0 0
      {| self := self after_broken_page;
         world := EvSend (MsgErrorParsingCategory "Vacancies" "'href'")
                  :: world after_broken_page |} /\
  exists parsed total end_time st',
    full_parse (home_env home_page) direct_parser
    = (Return (SessionOk parsed total "2024-05-01T10:00:0" end_time), st').
Proof.
  split.
  - apply (proj1 (category_fault_contained broken_page_env)
             1 1 0 vacancies [] 0 0 direct_parser after_broken_page (KeyError "href")).
    reflexivity.
  - destruct (proj2 (proj2 (category_fault_contained (home_env home_page)))
                direct_parser
                (snd (parse_main_page (home_env home_page)
                        {| self := self direct_parser;
                           world := [EvSend (MsgSessionStart "2024-05-01T10:00:0"); EvNow] |}))
                (match fst (parse_main_page (home_env home_page)
                              {| self := self direct_parser;
                                 world := [EvSend (MsgSessionStart "2024-05-01T10:00:0");
                                           EvNow] |}) with
                 | Return categories => categories
                 | Raise _ => []
                 end))
      as (parsed & total & end_time & st' & Hrun & _).
    + reflexivity.
    + exists parsed, total, end_time, st'. exact Hrun.
Defined.

(** A page-load timeout: the exception leaves [get_rendered_html] with the
    browser started and never quit. *)
Lemma rendered_html_timeout_leaks_browser :
  get_rendered_html timeout_env (c_url vacancies) 20 direct_parser
  = (Raise (TimeoutException "page load timed out"),
     {| self := self direct_parser;
        world := [EvDriverGet (c_url vacancies); EvSetPageLoadTimeout 20; EvChrome] |}) /\
  EvQuit ∉ [EvDriverGet (c_url vacancies); EvSetPageLoadTimeout 20; EvChrome].
Proof.
  apply (rendered_html_fault_skips_quit timeout_env (c_url vacancies) 20 direct_parser
           (TimeoutException "page load timed out")); reflexivity.
Defined.

End Instances.

(** ** The further properties on the example pages *)

Section MoreInstances.

#[local] Existing Instance MiniSoup.markup.
#[local] Existing Instance MiniSoup.bs4.

(** From position 0 of three HTTP proxies the rotation installs the
    second one; towards a SOCKS proxy without the SOCKS package it fails
    and keeps the first proxy while the index moves to 1. *)
Lemma rotate_proxy_outcome_witness :
  (exists st',
     _rotate_proxy quiet_env (parser_with_pool three_proxies 0 true) = (Return true, st') /\
     current_proxy_index (self st') = 1 /\
     session_proxies (self st') !! "http" = Some "http://proxy2:8080" /\
     session_proxies (self st') !! "https" = Some "http://proxy2:8080") /\
  (exists st',
     _rotate_proxy quiet_env (parser_with_pool pool_with_socks 0 true) = (Return false, st') /\
     current_proxy_index (self st') = 1 /\
     session_proxies (self st') = proxies_for "http://proxy1:8080").
Proof.
  split.
  - apply (proj1 (rotate_proxy_outcome quiet_env (parser_with_pool three_proxies 0 true)
                    ltac:(simpl; lia))).
    left. reflexivity.
  - apply (proj2 (rotate_proxy_outcome quiet_env (parser_with_pool pool_with_socks 0 true)
                    ltac:(simpl; lia))); reflexivity.
Defined.

(** With the HTTP and SOCKS options set and no explicit list, the pool is
    those two proxies in that order. *)
Lemma setup_proxy_pool_witness :
  proxy_list
    (self (snd (_setup_proxy quiet_env
                  {| self := init_parser separate_proxies None; world := [] |})))
  = ["http://proxy1:8080"; "socks5://proxy2:1080"].
Proof.
  apply (proj1 (proj2 (proj2 (setup_proxy_pool quiet_env separate_proxies None []))));
    reflexivity.
Defined.

(** A 404 through the first of three proxies, with rotation enabled: one
    request and no other proxy is tried. *)
Lemma fetch_attempts_no_retry_witness :
  fetch_attempts not_found_env (c_url vacancies) 3 (parser_with_pool three_proxies 0 true)
  = (Return None,
     {| self := self (parser_with_pool three_proxies 0 true);
        world := [EvGet (c_url vacancies) (proxies_for "http://proxy1:8080") 10] |}).
Proof.
  apply (fetch_attempts_no_retry not_found_env (c_url vacancies) 2
           (parser_with_pool three_proxies 0 true)).
  reflexivity.
Defined.


(** The proxy refuses and the direct connection answers: the page is
    returned and the session is left without proxy. *)
Lemma fetch_page_direct_success_drops_proxy_witness :
  exists st',
    _fetch_page direct_only_env (c_url vacancies) one_proxy
    = (Return (Some (ok_response table_page)), st') /\
    session_proxies (self st') = ∅ /\
    self st' = with_proxies (self after_proxy_attempt) ∅.
Proof.
  apply (fetch_page_direct_success_drops_proxy direct_only_env (c_url vacancies)
           one_proxy after_proxy_attempt (ok_response table_page)).
  - reflexivity.
  - reflexivity.
  - apply insert_non_empty.
  - reflexivity.
  - reflexivity.
  - reflexivity.
Defined.

(** [table_page]: the header row is skipped and the two listings follow
    their rows. *)
Lemma extract_listings_follow_rows_witness :
  map forget_parsed_at
      (match fst (_extract_listings quiet_env table_page direct_parser) with
       | Return ls => ls
       | Raise _ => []
       end)
  = omap (row_listing quiet_env) (select (BeautifulSoup table_page) "table.ml tr") /\
  length (match fst (_extract_listings quiet_env table_page direct_parser) with
          | Return ls => ls
          | Raise _ => []
          end)
  <= length (select (BeautifulSoup table_page) "table.ml tr").
Proof.
  apply (extract_listings_follow_rows quiet_env table_page direct_parser
           (snd (_extract_listings quiet_env table_page direct_parser))).
  reflexivity.
Defined.

Lemma extract_listings_id_witness :
  Forall (fun l => l_id l = id_of_url (l_url l) /\
                   char_in "/" (l_id l) = false /\ char_in "." (l_id l) = false /\
                   forall prefix, l_url l = prefix +:+ "/" -> l_id l = "")
         (match fst (_extract_listings quiet_env table_page direct_parser) with
          | Return ls => ls
          | Raise _ => []
          end).
Proof.
  apply (extract_listings_id quiet_env table_page direct_parser
           (snd (_extract_listings quiet_env table_page direct_parser))).
  reflexivity.
Defined.

(** The item without a link: its [id] comes from the hash of the title. *)
Lemma parse_listing_item_fields_witness :
  match fst (_parse_listing_item quiet_env item_without_link direct_parser) with
  | Return (Some l) =>
      String.length (i_description l) <= 200 /\
      Forall (fun url => validate_url quiet_env url = true) (i_images l) /\
      length (i_images l) <= length (find_all item_without_link "img" "src") /\
      i_date l = "" /\
      i_parsed_at l = now quiet_env (world direct_parser) /\
      (i_url l = "" -> exists h, i_id l = Some h /\ String.length h <= 10) /\
      (i_url l <> "" -> forall h, i_id l = Some h -> h <> "" /\ char_in "/" h = false)
  | _ => False
  end.
Proof.
  destruct (_parse_listing_item quiet_env item_without_link direct_parser)
    as [[[l|]|e] st'] eqn:E.
  - exact (parse_listing_item_fields quiet_env item_without_link direct_parser st' l E).
  - vm_compute in E. discriminate.
  - vm_compute in E. discriminate.
Defined.

Lemma discovered_categories_wellformed_witness :
  validate_url quiet_env (c_url moscow) = true /\
  3 <= String.length (c_name moscow) <= 49 /\
  exists selector link,
    selector ∈ category_selectors /\
    link ∈ select (BeautifulSoup home_page) selector /\
    c_found_by moscow = Some selector /\
    c_name moscow = get_text link /\
    urljoin quiet_env base_url (default "" (get link "href")) = inl (c_url moscow) /\
    default "" (get link "href") <> "" /\
    forall skip, skip ∈ skip_list ->
                 Py.str_in skip (Py.lower (default "" (get link "href"))) = false.
Proof.
  apply (discovered_categories_wellformed quiet_env (BeautifulSoup home_page)
           (match discovered quiet_env (BeautifulSoup home_page) with
            | inl unique => unique
            | inr _ => []
            end)
           moscow).
  - vm_compute. reflexivity.
  - vm_compute. apply list_elem_of_lookup. exists 1. reflexivity.
Defined.

Lemma unique_from_idempotent_witness :
  unique_from ∅ [moscow; vacancies] = [moscow; vacancies].
Proof.
  apply (proj2 (unique_from_idempotent ∅ [moscow; vacancies])).
  - apply (bool_decide_unpack _). vm_compute. exact I.
  - intros cat _. apply not_elem_of_empty.
Defined.

(** [home_page] is fetched: its three categories are returned, with
    distinct URLs. *)
Lemma parse_main_page_capped_witness :
  let categories :=
    match fst (parse_main_page (home_env home_page) direct_parser) with
    | Return categories => categories
    | Raise _ => []
    end in
  length categories <= 5 /\
  (categories = [] \/ 3 <= length categories) /\
  NoDup (map c_url categories) /\
  (categories = [] <->
   fst (_fetch_page (home_env home_page) base_url
          {| self := self direct_parser;
             world := EvSend MsgMainPage :: world direct_parser |}) = Return None).
Proof.
  apply (parse_main_page_capped (home_env home_page) direct_parser
           (snd (parse_main_page (home_env home_page) direct_parser))).
  reflexivity.
Defined.

(** A page-load timeout in [parse_category]: the empty list and one
    notification. *)
Lemma parse_category_render_fault_witness :
  parse_category timeout_env (c_url vacancies) direct_parser
  = (Return [],
     {| self := self direct_parser;
        world := [EvSend (MsgSeleniumError "page load timed out");
                  EvDriverGet (c_url vacancies); EvSetPageLoadTimeout 20; EvChrome;
                  EvSend (MsgStartParse (c_url vacancies))] |}) /\
  saved [EvDriverGet (c_url vacancies); EvSetPageLoadTimeout 20; EvChrome;
         EvSend (MsgStartParse (c_url vacancies))]
  = saved (world direct_parser).
Proof.
  apply (parse_category_render_fault timeout_env (c_url vacancies) direct_parser
           {| self := self direct_parser;
              world := [EvDriverGet (c_url vacancies); EvSetPageLoadTimeout 20; EvChrome;
                        EvSend (MsgStartParse (c_url vacancies))] |}
           (TimeoutException "page load timed out")).
  reflexivity.
Defined.

Lemma parse_category_saves_what_it_returns_witness :
  match parse_category quiet_env (c_url vacancies) direct_parser with
  | (Return listings, st') =>
      length listings = 2 /\ saved (world st') = rev listings ++ saved (world direct_parser)
  | _ => False
  end.
Proof.
  destruct (parse_category quiet_env (c_url vacancies) direct_parser)
    as [[listings|e] st'] eqn:E.
  - split.
    + vm_compute in E. injection E as <- _. reflexivity.
    + exact (parse_category_saves_what_it_returns quiet_env (c_url vacancies)
               direct_parser st' listings E).
  - vm_compute in E. discriminate.
Defined.

(** A session over [home_page]: three categories, within the limit 3. *)
Lemma full_parse_counts_witness :
  match fst (full_parse (home_env home_page) direct_parser) with
  | Return (SessionOk parsed _ _ _) => parsed <= 3 /\ parsed <= 5
  | _ => False
  end.
Proof.
  destruct (full_parse (home_env home_page) direct_parser) as [[[parsed total t0 t1|err]|e] st']
    eqn:E.
  - exact (full_parse_counts (home_env home_page) direct_parser st' parsed total t0 t1 E).
  - vm_compute in E. discriminate.
  - vm_compute in E. discriminate.
Defined.

Lemma rendered_html_returns_after_quit_witness :
  match get_rendered_html quiet_env (c_url vacancies) 20 direct_parser with
  | (Return page, st') =>
      world st'
      = EvQuit :: EvPageSource :: EvSleep 3 :: EvDriverGet (c_url vacancies)
        :: EvSetPageLoadTimeout 20 :: EvChrome :: world direct_parser /\
      self st' = self direct_parser /\
      page_source quiet_env (EvSleep 3 :: EvDriverGet (c_url vacancies)
                             :: EvSetPageLoadTimeout 20 :: EvChrome :: world direct_parser)
      = inl page
  | _ => False
  end.
Proof.
  destruct (get_rendered_html quiet_env (c_url vacancies) 20 direct_parser)
    as [[page|e] st'] eqn:E.
  - exact (rendered_html_returns_after_quit quiet_env (c_url vacancies) 20
             direct_parser st' page E).
  - vm_compute in E. discriminate.
Defined.

End MoreInstances.
